(** * graphiql-explorer: the AST synchronisation engine of [Explorer.js]
      and the scalar input plugin registry, embedded and verified.

    The document tree is a graph of JavaScript objects that the code
    compares with [===] and [!==]; it is modelled as a store of AST
    nodes addressed by references, so that two structurally identical
    nodes are still two different objects.  The [graphql] library and
    the JavaScript built-ins the code calls ([parseValue], [JSON.parse],
    [String], [parse]) are outside the repository and appear as the
    operations of a host interface. *)

From Stdlib Require Import ZArith NArith Ascii String List Bool Lia.
From stdpp Require Import gmap strings list fin_maps.

Set Warnings "-register-all".

Local Open Scope string_scope.
Local Open Scope list_scope.

(* ===================================================================== *)
(** * JavaScript: completions, try/catch, host values                     *)
(* ===================================================================== *)

Module JS.

(** How the evaluation of a piece of code ends.  [Exhausted] is not a
    behaviour of the program: it is the embedding's recursion budget
    running out, and stands for a call that does not return. *)
Inductive completion (A : Type) : Type :=
| Normal (a : A)
| Throw (e : string)
| Exhausted.
Arguments Normal {A} a.
Arguments Throw {A} e.
Arguments Exhausted {A}.

Definition bind {A B} (c : completion A) (k : A -> completion B) : completion B :=
  match c with
  | Normal a => k a
  | Throw e => Throw e
  | Exhausted => Exhausted
  end.

(** [try { c } catch (e) { handler e }] *)
Definition try_catch {A} (c : completion A) (handler : string -> completion A)
  : completion A :=
  match c with
  | Throw e => handler e
  | other => other
  end.

Definition returns {A} (c : completion A) : Prop := exists a, c = Normal a.

(** What a call into the host or into the [graphql] library does: it
    gives a value or raises an exception. *)
Inductive outcome (A : Type) : Type :=
| Gives (a : A)
| Raises (e : string).
Arguments Gives {A} a.
Arguments Raises {A} e.

Definition call {A} (o : outcome A) : completion A :=
  match o with
  | Gives a => Normal a
  | Raises e => Throw e
  end.

(** [for (const x of xs) { acc = body acc x }], stopping at the first
    abrupt completion. *)
Fixpoint for_of {A S} (body : S -> A -> completion S) (xs : list A) (acc : S)
  : completion S :=
  match xs with
  | [] => Normal acc
  | x :: rest => bind (body acc x) (for_of body rest)
  end.

(** The values of the host language that the engine only observes
    through truthiness, [String(v)], [typeof v === 'boolean'], and the
    built-in [JSON.parse]. *)
Class Host := {
  Value : Type;
  ToBoolean : Value -> bool;
  ToString : Value -> outcome string;
  as_boolean : Value -> option bool;
  JSON_parse : string -> outcome Value
}.

(** A string of UTF-16 code units, for the text whose white space
    matters. *)
Definition Text := list N.

(** ECMAScript WhiteSpace and LineTerminator code units, the ones
    [String.prototype.trim] strips. *)
Definition isWhiteSpace (c : N) : bool :=
  (N.eqb c 9 || N.eqb c 10 || N.eqb c 11 || N.eqb c 12 || N.eqb c 13
   || N.eqb c 32 || N.eqb c 160 || N.eqb c 5760
   || (N.leb 8192 c && N.leb c 8202)
   || N.eqb c 8232 || N.eqb c 8233 || N.eqb c 8239 || N.eqb c 8287
   || N.eqb c 12288 || N.eqb c 65279)%N.

Fixpoint trimStart (t : Text) : Text :=
  match t with
  | [] => []
  | c :: rest => if isWhiteSpace c then trimStart rest else t
  end.

Definition trim (t : Text) : Text := rev (trimStart (rev (trimStart t))).

(** Truthiness of a string: only the empty one is falsy. *)
Definition truthy (t : Text) : bool :=
  match t with [] => false | _ => true end.

End JS.

Declare Scope js_scope.
Delimit Scope js_scope with js.
Notation "x <- c ;; k" := (JS.bind c (fun x => k))
  (at level 100, c at next level, right associativity) : js_scope.
Local Open Scope js_scope.

(* ===================================================================== *)
(** * The input-control plugin registry (ScalarInputPluginManager)        *)
(* ===================================================================== *)

Module ScalarInputPluginManager.
Section Manager.
(** The argument handed to a plugin, the style configuration, the
    change handler and what a plugin renders. *)
Variables (Arg Style Handler Rendering : Type).

Record Plugin := {
  canProcess : Arg -> bool;
  render : Arg -> Style -> Handler -> Rendering
}.

(** [const bundledPlugins = [DatePlugin]]; the date plugin itself
    lives in [./bundled/DateInput]. *)
Variable DatePlugin : Plugin.
Definition bundledPlugins : list Plugin := [DatePlugin].

Record Manager := { plugins : list Plugin }.

(** [constructor(plugins = [], enableBundledPlugins = false)].
    [enabledPlugins] aliases the caller's array and [push] extends
    it in place: the second component is the caller's array after
    the call. *)
Definition constructor (plugins : option (list Plugin))
    (enableBundledPlugins : bool) : Manager * list Plugin :=
  let enabledPlugins := match plugins with Some ps => ps | None => [] end in
  let enabledPlugins :=
    if enableBundledPlugins then enabledPlugins ++ bundledPlugins
    else enabledPlugins in
  ({| plugins := enabledPlugins |}, enabledPlugins).

(** [process(arg, styleConfig, onChangeHandler)]; [None] is [null]. *)
Definition process (this : Manager) (arg : Arg) (styleConfig : Style)
    (onChangeHandler : Handler) : option Rendering :=
  let handler := List.find (fun plugin => canProcess plugin arg) (plugins this) in
  match handler with
  | Some handler => Some (render handler arg styleConfig onChangeHandler)
  | None => None
  end.

(** The plugin does not take the argument. *)
Definition rejects (arg : Arg) (p : Plugin) : Prop := canProcess p arg = false.
End Manager.

Arguments rejects {Arg Style Handler Rendering} _ _.
Arguments canProcess {Arg Style Handler Rendering} _ _.
Arguments render {Arg Style Handler Rendering} _ _ _ _.
Arguments plugins {Arg Style Handler Rendering} _.
Arguments bundledPlugins {Arg Style Handler Rendering} _.
Arguments constructor {Arg Style Handler Rendering} _ _ _.
Arguments process {Arg Style Handler Rendering} _ _ _ _.
End ScalarInputPluginManager.

(* ===================================================================== *)
(** * The schema and the document tree of the [graphql] library           *)
(* ===================================================================== *)

Module GraphQL.
Import JS.

Section Types.
Context `{!Host}.

(** Schema types.  A scalar and an enum carry their own
    [parseValue]; an enum lists the names of [getValues()] in
    declared order.  Object-like types are named, and their field
    maps are reached through the schema, as the type objects of the
    library point at each other and may do so in a cycle. *)
Inductive GraphQLType : Type :=
| GraphQLScalarType (name : string) (parseValue : string -> outcome Value)
| GraphQLEnumType (name : string) (values : list string)
    (parseValue : string -> outcome Value)
| GraphQLObjectType (name : string)
| GraphQLInterfaceType (name : string)
| GraphQLUnionType (name : string)
| GraphQLInputObjectType (name : string)
| GraphQLList (ofType : GraphQLType)
| GraphQLNonNull (ofType : GraphQLType).

Definition isScalarType (t : GraphQLType) : bool :=
  match t with GraphQLScalarType _ _ => true | _ => false end.
Definition isEnumType (t : GraphQLType) : bool :=
  match t with GraphQLEnumType _ _ _ => true | _ => false end.
Definition isObjectType (t : GraphQLType) : bool :=
  match t with GraphQLObjectType _ => true | _ => false end.
Definition isInterfaceType (t : GraphQLType) : bool :=
  match t with GraphQLInterfaceType _ => true | _ => false end.
Definition isUnionType (t : GraphQLType) : bool :=
  match t with GraphQLUnionType _ => true | _ => false end.
Definition isInputObjectType (t : GraphQLType) : bool :=
  match t with GraphQLInputObjectType _ => true | _ => false end.
Definition isNonNullType (t : GraphQLType) : bool :=
  match t with GraphQLNonNull _ => true | _ => false end.
Definition isWrappingType (t : GraphQLType) : bool :=
  match t with GraphQLList _ | GraphQLNonNull _ => true | _ => false end.
(** [isLeafType] of the library looks at the type as it is given:
    it does not look through [List] or [NonNull]. *)
Definition isLeafType (t : GraphQLType) : bool :=
  isScalarType t || isEnumType t.

(** [type.name]; a wrapping type has none. *)
Definition type_name (t : GraphQLType) : option string :=
  match t with
  | GraphQLScalarType n _ | GraphQLEnumType n _ _ | GraphQLObjectType n
  | GraphQLInterfaceType n | GraphQLUnionType n | GraphQLInputObjectType n => Some n
  | GraphQLList _ | GraphQLNonNull _ => None
  end.

(** [GraphQLArgument] and [GraphQLInputField] have the same shape;
    [defaultValue = None] is [undefined]. *)
Record GraphQLArgument := {
  arg_name : string;
  arg_type : GraphQLType;
  arg_defaultValue : option Value
}.
Definition GraphQLInputField := GraphQLArgument.

Record GraphQLField := {
  field_name : string;
  field_type : GraphQLType;
  field_args : list GraphQLArgument
}.

(** A field map, the object [type.getFields()] returns: keys are
    field names, [Object.keys] lists them in declared order. *)
Definition GraphQLFieldMap := list (string * GraphQLField).

Fixpoint get {A} (fields : list (string * A)) (key : string) : option A :=
  match fields with
  | [] => None
  | (k, v) :: rest => if String.eqb k key then Some v else get rest key
  end.

Definition Object_keys {A} (fields : list (string * A)) : list string :=
  map fst fields.

(** [Object.keys(fields).map(k => fields[k])] *)
Definition Object_values {A} (fields : list (string * A)) : list A :=
  flat_map (fun k => match get fields k with Some v => [v] | None => [] end)
    (Object_keys fields).

(** What the engine reads of the schema: [getFields()] of the input
    object type with a given name. *)
Record GraphQLSchema := {
  inputFields : string -> list (string * GraphQLInputField)
}.

(** [type.getFields()] on an input type; only input object types have
    the method. *)
Definition getFields (schema : GraphQLSchema) (t : GraphQLType)
  : list (string * GraphQLInputField) :=
  match t with
  | GraphQLInputObjectType n => inputFields schema n
  | _ => []
  end.

(** [isRequiredInputField] of the library. *)
Definition isRequiredInputField (field : GraphQLInputField) : bool :=
  isNonNullType (arg_type field)
  && match arg_defaultValue field with None => true | Some _ => false end.
End Types.

(** ** Document nodes *)

Record NameNode := { value : string }.

Inductive ValueNode : Type :=
| VariableValue (name : NameNode)
| IntValue (value : string)
| FloatValue (value : string)
| StringValue (value : string)
| BooleanValue (value : bool)
| NullValue
| EnumValue (value : string)
| ListValue (values : list ValueNode)
| ObjectValue (fields : list ObjectFieldNode)
with ObjectFieldNode : Type :=
| ObjectField (name : NameNode) (value : ValueNode).

Record ArgumentNode := { a_name : NameNode; a_value : ValueNode }.

Record DirectiveNode := { d_name : NameNode; d_arguments : list ArgumentNode }.

Record VariableDefinitionNode := { v_variable : NameNode; v_type : string }.

(** References to the objects of the tree; [===] on nodes is equality
    of references. *)
Definition ref := positive.

Record SelectionSetNode := { selections : list ref }.

Inductive OperationTypeNode := query | mutation | subscription.

Definition operation_eqb (a b : OperationTypeNode) : bool :=
  match a, b with
  | query, query | mutation, mutation | subscription, subscription => true
  | _, _ => false
  end.

(** A property that may be missing or [undefined] is an [option]. *)
Record FieldNode := {
  f_alias : option NameNode;
  f_name : NameNode;
  f_arguments : option (list ArgumentNode);
  f_directives : option (list DirectiveNode);
  f_selectionSet : option SelectionSetNode
}.

Record InlineFragmentNode := {
  i_typeCondition : option NameNode;
  i_directives : option (list DirectiveNode);
  i_selectionSet : SelectionSetNode
}.

Record OperationDefinitionNode := {
  o_operation : OperationTypeNode;
  o_name : option NameNode;
  o_variableDefinitions : option (list VariableDefinitionNode);
  o_directives : option (list DirectiveNode);
  o_selectionSet : SelectionSetNode
}.

(** The nodes the engine meets in sibling lists and definition lists,
    tagged by their [kind]. *)
Inductive ASTNode :=
| Field (node : FieldNode)
| FragmentSpread (name : NameNode)
| InlineFragment (node : InlineFragmentNode)
| OperationDefinition (node : OperationDefinitionNode)
| FragmentDefinition (name : NameNode) (selectionSet : SelectionSetNode)
| OtherDefinition (kind : string).

Record DocumentNode := { definitions : list ref }.

(** The store of allocated nodes. *)
Abbreviation Store := (gmap ref ASTNode).

(** An object literal allocates a new object. *)
Definition alloc (h : Store) (node : ASTNode) : ref * Store :=
  let r := fresh (dom h) in (r, <[r := node]> h).

Definition ref_eqb (a b : ref) : bool := Pos.eqb a b.

(** [s === o] where [o] may be [null] or [undefined]. *)
Definition same (s : ref) (o : option ref) : bool :=
  match o with Some r => ref_eqb s r | None => false end.

(** [selection !== node] for an object [node]. *)
Definition other_than (node : ref) (selection : ref) : bool :=
  negb (ref_eqb selection node).

End GraphQL.

(* ===================================================================== *)
(** * Explorer.js: the functions of the module                            *)
(* ===================================================================== *)

Module Explorer.
Import JS GraphQL.

Section Functions.
Context `{!Host}.

Definition has {A} (fields : list (string * A)) (key : string) : bool :=
  match get fields key with Some _ => true | None => false end.

(** [fields] is [type.getFields()] of the object type. *)
Definition defaultGetDefaultFieldNames (fields : GraphQLFieldMap) : list string :=
  (* Is there an `id` field? *)
  if has fields "id" then
    let res := ["id"] in
    if has fields "email" then res ++ ["email"]
    else if has fields "name" then res ++ ["name"]
    else res
  (* Is there an `edges` field? *)
  else if has fields "edges" then ["edges"]
  (* Is there an `node` field? *)
  else if has fields "node" then ["node"]
  else if has fields "nodes" then ["nodes"]
  else
    (* Include all leaf-type fields. *)
    let leafFieldNames :=
      fold_left
        (fun leafFieldNames fieldName =>
           match get fields fieldName with
           | Some f =>
               if isLeafType (field_type f) then leafFieldNames ++ [fieldName]
               else leafFieldNames
           | None => leafFieldNames
           end)
        (Object_keys fields) [] in
    firstn 2 leafFieldNames.

Definition isRequiredArgument (arg : GraphQLArgument) : bool :=
  isNonNullType (arg_type arg)
  && match arg_defaultValue arg with None => true | Some _ => false end.

Fixpoint unwrapOutputType (outputType : GraphQLType) : GraphQLType :=
  match outputType with
  | GraphQLList ofType | GraphQLNonNull ofType => unwrapOutputType ofType
  | unwrappedType => unwrappedType
  end.

Fixpoint unwrapInputType (inputType : GraphQLType) : GraphQLType :=
  match inputType with
  | GraphQLList ofType | GraphQLNonNull ofType => unwrapInputType ofType
  | unwrappedType => unwrappedType
  end.

(** [argType.parseValue(value)] *)
Definition parseValue (argType : GraphQLType) (value : string) : completion Value :=
  match argType with
  | GraphQLScalarType _ p | GraphQLEnumType _ _ p => call (p value)
  | _ => Throw "TypeError: argType.parseValue is not a function"
  end.

(** [String(argType.parseValue(value))] *)
Definition parsedText (argType : GraphQLType) (value : string) : completion string :=
  parsed <- parseValue argType value ;; call (ToString parsed).

(** [argType.getValues()[0].name] *)
Definition firstValueName (argType : GraphQLType) : completion string :=
  match argType with
  | GraphQLEnumType _ (v :: _) _ => Normal v
  | GraphQLEnumType _ [] _ => Throw "TypeError: Cannot read property 'name' of undefined"
  | _ => Throw "TypeError: argType.getValues is not a function"
  end.

Definition name_is (argType : GraphQLType) (n : string) : bool :=
  match type_name argType with Some m => String.eqb m n | None => false end.

Definition argValue (argType : GraphQLType) (value : string) : completion ValueNode :=
  if isScalarType argType then
    try_catch
      (if name_is argType "String" then
         s <- parsedText argType value ;; Normal (StringValue s)
       else if name_is argType "Float" then
         s <- parsedText argType value ;; Normal (FloatValue s)
       else if name_is argType "Int" then
         s <- parsedText argType value ;; Normal (IntValue s)
       else if name_is argType "Boolean" then
         try_catch
           (parsed <- call (JSON_parse value) ;;
            match as_boolean parsed with
            | Some b => Normal (BooleanValue b)
            | None => Normal (BooleanValue false)
            end)
           (fun e => Normal (BooleanValue false))
       else
         s <- parsedText argType value ;; Normal (StringValue s))
      (fun e => Normal (StringValue value))
  else
    try_catch
      (parsedValue <- parseValue argType value ;;
       if ToBoolean parsedValue then
         s <- call (ToString parsedValue) ;; Normal (EnumValue s)
       else
         n <- firstValueName argType ;; Normal (EnumValue n))
      (fun e => n <- firstValueName argType ;; Normal (EnumValue n)).

Definition defaultValue (argType : GraphQLType) : completion ValueNode :=
  if isEnumType argType then
    n <- firstValueName argType ;; Normal (EnumValue n)
  else if name_is argType "String" then Normal (StringValue "")
  else if name_is argType "Float" then Normal (FloatValue "1.5")
  else if name_is argType "Int" then Normal (IntValue "10")
  else if name_is argType "Boolean" then Normal (BooleanValue false)
  else Normal (StringValue "").

(** The recursion follows the schema's input objects; [fuel] bounds the
    depth of the calls. *)
Fixpoint defaultInputObjectFields (fuel : nat) (schema : GraphQLSchema)
    (fields : list GraphQLInputField) : completion (list ObjectFieldNode) :=
  match fuel with
  | O => Exhausted
  | S fuel =>
      for_of
        (fun nodes field =>
           if isRequiredInputField field then
             let fieldType := unwrapInputType (arg_type field) in
             if isInputObjectType fieldType then
               let fields := getFields schema fieldType in
               sub <- defaultInputObjectFields fuel schema (Object_values fields) ;;
               Normal (nodes ++ [ObjectField {| value := arg_name field |}
                                   (ObjectValue sub)])
             else if isLeafType fieldType then
               v <- defaultValue fieldType ;;
               Normal (nodes ++ [ObjectField {| value := arg_name field |} v])
             else Normal nodes
           else Normal nodes)
        fields []
  end.

Definition defaultArgs (fuel : nat) (schema : GraphQLSchema) (field : GraphQLField)
  : completion (list ArgumentNode) :=
  for_of
    (fun args arg =>
       if isRequiredArgument arg then
         let argType := unwrapInputType (arg_type arg) in
         if isInputObjectType argType then
           let fields := getFields schema argType in
           sub <- defaultInputObjectFields fuel schema (Object_values fields) ;;
           Normal (args ++ [{| a_name := {| value := arg_name arg |};
                               a_value := ObjectValue sub |}])
         else if isLeafType argType then
           v <- defaultValue argType ;;
           Normal (args ++ [{| a_name := {| value := arg_name arg |};
                               a_value := v |}])
         else Normal args
       else Normal args)
    (field_args field) [].

End Functions.

(** ** The parse memoizer *)

(** A computation that may call the library's [parse(text, {noLocation:
    true})]; the call either returns a document or throws. *)
Inductive calls (A : Type) : Type :=
| Return (a : A)
| CallParse (text : Text) (k : DocumentNode + string -> calls A).
Arguments Return {A} a.
Arguments CallParse {A} text k.

Fixpoint then_ {A B} (c : calls A) (k : A -> calls B) : calls B :=
  match c with
  | Return a => k a
  | CallParse text k' => CallParse text (fun r => then_ (k' r) k)
  end.

(** Running a computation against a parser, and the texts it parses. *)
Fixpoint run {A} (parse : Text -> DocumentNode + string) (c : calls A) : A :=
  match c with
  | Return a => a
  | CallParse text k => run parse (k (parse text))
  end.

Fixpoint parsed {A} (parse : Text -> DocumentNode + string) (c : calls A)
  : list Text :=
  match c with
  | Return _ => []
  | CallParse text k => text :: parsed parse (k (parse text))
  end.

(** [?DocumentNode | Error] *)
Inductive ParseResult :=
| Null
| Error (e : string)
| Document (d : DocumentNode).

Definition parseQuery (text : Text) : calls ParseResult :=
  if negb (truthy (trim text)) then Return Null
  else
    CallParse text
      (fun r => match r with
                | inl d => Return (Document d)
                | inr e => Return (Error e)
                end).

Definition DEFAULT_DOCUMENT : DocumentNode := {| definitions := [] |}.

Definition Text_eqb (a b : Text) : bool := bool_decide (a = b).

(** The module variable [parseQueryMemoize] is threaded through: the
    result is the returned document and the variable after the call. *)
Definition memoizeParseQuery (parseQueryMemoize : option (Text * DocumentNode))
    (query : Text) : calls (DocumentNode * option (Text * DocumentNode)) :=
  let miss :=
    then_ (parseQuery query) (fun result =>
      match result with
      | Null => Return (DEFAULT_DOCUMENT, parseQueryMemoize)
      | Error _ =>
          match parseQueryMemoize with
          | Some (_, d) =>
              (* Most likely a temporarily invalid query while they type *)
              Return (d, parseQueryMemoize)
          | None => Return (DEFAULT_DOCUMENT, parseQueryMemoize)
          end
      | Document result => Return (result, Some (query, result))
      end) in
  match parseQueryMemoize with
  | Some (text, d) => if Text_eqb text query then Return (d, parseQueryMemoize) else miss
  | None => miss
  end.

(** What the module variable holds between calls: nothing, or a text
    that is not blank together with the document [parse] gave for it. *)
Definition memoized (parse : Text -> DocumentNode + string)
    (parseQueryMemoize : option (Text * DocumentNode)) : Prop :=
  match parseQueryMemoize with
  | Some (text, d) => truthy (trim text) = true /\ parse text = inl d
  | None => True
  end.

(** Empty or made of white space only. *)
Definition blank (text : Text) : Prop := Forall (fun c => isWhiteSpace c = true) text.

(** Successive renders: [Explorer.render] calls [memoizeParseQuery] with
    the text of each render and the module variable persists between
    the calls.  The result is the document of each render, in order,
    and the variable after the last one. *)
Fixpoint renders (parse : Text -> DocumentNode + string)
    (parseQueryMemoize : option (Text * DocumentNode)) (queries : list Text)
  : list DocumentNode * option (Text * DocumentNode) :=
  match queries with
  | [] => ([], parseQueryMemoize)
  | text :: rest =>
      let '(d, parseQueryMemoize) :=
        run parse (memoizeParseQuery parseQueryMemoize text) in
      let '(ds, parseQueryMemoize) := renders parse parseQueryMemoize rest in
      (d :: ds, parseQueryMemoize)
  end.

(** The text the parser accepts: not blank, and parsed to a document. *)
Definition accepted (parse : Text -> DocumentNode + string) (text : Text)
  : option (Text * DocumentNode) :=
  if truthy (trim text) then
    match parse text with
    | inl d => Some (text, d)
    | inr _ => None
    end
  else None.

(** The last accepted text of a sequence, with its document, after the
    one already known. *)
Definition lastAccepted (parse : Text -> DocumentNode + string)
    (known : option (Text * DocumentNode)) (queries : list Text)
  : option (Text * DocumentNode) :=
  fold_left
    (fun known text =>
       match accepted parse text with
       | Some latest => Some latest
       | None => known
       end)
    queries known.

(** The document a render shows for a text, without any memo: the
    document of the text when it is accepted; else, for a text that is
    not blank, the document of the last accepted text when there is
    one; the empty document otherwise. *)
Definition shown (parse : Text -> DocumentNode + string)
    (known : option (Text * DocumentNode)) (text : Text) : DocumentNode :=
  match accepted parse text with
  | Some (_, d) => d
  | None =>
      if truthy (trim text) then
        match known with
        | Some (_, d) => d
        | None => DEFAULT_DOCUMENT
        end
      else DEFAULT_DOCUMENT
  end.

Fixpoint shownAll (parse : Text -> DocumentNode + string)
    (known : option (Text * DocumentNode)) (queries : list Text)
  : list DocumentNode :=
  match queries with
  | [] => []
  | text :: rest =>
      shown parse known text
      :: shownAll parse (lastAccepted parse known [text]) rest
  end.

End Explorer.

(* ===================================================================== *)
(** * FieldView: the synchronizer of one schema field in a sibling list   *)
(* ===================================================================== *)

Module FieldView.
Import JS GraphQL Explorer.

Section Component.
Context `{!Host}.

(** What the handlers read of [this.props]; [modifySelections] is the
    callback whose argument the handlers compute. *)
Record Props := {
  field : GraphQLField;
  selections : list ref
}.

(** The instance variable of the component. *)
Record Instance := { _previousSelection : option ref }.

(** [selection.kind === 'Field' && this.props.field.name === selection.name.value] *)
Definition belongs (h : Store) (props : Props) (selection : ref) : bool :=
  match h !! selection with
  | Some (Field node) => String.eqb (field_name (field props)) (value (f_name node))
  | _ => false
  end.

(** [None] is [null] (or the [undefined] of the fall-through). *)
Definition _getSelection (h : Store) (props : Props) : option ref :=
  let selection := List.find (belongs h props) (selections props) in
  match selection with
  | None => None
  | Some selection =>
      match h !! selection with
      | Some (Field _) => Some selection
      | _ => None
      end
  end.

(** The result is the store, the instance and the list passed to
    [this.props.modifySelections]. *)
Definition _addFieldToSelections (fuel : nat) (schema : GraphQLSchema)
    (h : Store) (this : Instance) (props : Props)
  : completion (Store * Instance * list ref) :=
  match _previousSelection this with
  | Some previousSelection =>
      Normal (h, this, selections props ++ [previousSelection])
  | None =>
      arguments <- defaultArgs fuel schema (field props) ;;
      let '(node, h) :=
        alloc h (Field {| f_alias := None;
                          f_name := {| value := field_name (field props) |};
                          f_arguments := Some arguments;
                          f_directives := None;
                          f_selectionSet := None |}) in
      Normal (h, this, selections props ++ [node])
  end.

Definition _removeFieldFromSelections (h : Store) (this : Instance) (props : Props)
  : Instance * list ref :=
  let previousSelection := _getSelection h props in
  let this := {| _previousSelection := previousSelection |} in
  (this, List.filter (fun selection => negb (same selection previousSelection))
           (selections props)).

(** [xs.map(s => s === target ? {...} : s)]: every element that is the
    target object is replaced by a newly allocated one. *)
Fixpoint map_replacing (h : Store) (target : ref) (replacement : ASTNode)
    (xs : list ref) : Store * list ref :=
  match xs with
  | [] => (h, [])
  | s :: rest =>
      if ref_eqb s target then
        let '(s', h) := alloc h replacement in
        let '(h, rest') := map_replacing h target replacement rest in
        (h, s' :: rest')
      else
        let '(h, rest') := map_replacing h target replacement rest in
        (h, s :: rest')
  end.

(** [None] in the second component: [modifySelections] is not called
    (the handler logs 'Missing selection when setting arguments'). *)
Definition _setArguments (h : Store) (props : Props)
    (argumentNodes : list ArgumentNode) : Store * option (list ref) :=
  match _getSelection h props with
  | None => (h, None)
  | Some selection =>
      match h !! selection with
      | Some (Field node) =>
          let '(h, out) :=
            map_replacing h selection
              (Field {| f_alias := f_alias node;
                        f_arguments := Some argumentNodes;
                        f_directives := f_directives node;
                        f_name := f_name node;
                        f_selectionSet := f_selectionSet node |})
              (selections props) in
          (h, Some out)
      | _ => (h, None)
      end
  end.

(** [selections.map(selection => ... )] of [_modifyChildSelections]:
    every Field node named after the schema field is replaced by a new
    object with the given nested selections; the contents are read in
    the store [h0] of the call, the new objects go to [h]. *)
Fixpoint map_named (h0 h : Store) (props : Props) (childSelections : list ref)
    (xs : list ref) : Store * list ref :=
  match xs with
  | [] => (h, [])
  | selection :: rest =>
      match h0 !! selection with
      | Some (Field node) =>
          if String.eqb (field_name (field props)) (value (f_name node)) then
            let '(selection', h) :=
              alloc h (Field {| f_alias := f_alias node;
                                f_arguments := f_arguments node;
                                f_directives := f_directives node;
                                f_name := f_name node;
                                f_selectionSet :=
                                  Some {| GraphQL.selections := childSelections |} |}) in
            let '(h, rest') := map_named h0 h props childSelections rest in
            (h, selection' :: rest')
          else
            let '(h, rest') := map_named h0 h props childSelections rest in
            (h, selection :: rest')
      | _ =>
          let '(h, rest') := map_named h0 h props childSelections rest in
          (h, selection :: rest')
      end
  end.

(** The result is the store and the list passed to
    [this.props.modifySelections]; the [throw] of the source stands
    behind a test of the kind that has just succeeded. *)
Definition _modifyChildSelections (h : Store) (props : Props)
    (childSelections : list ref) : Store * list ref :=
  map_named h h props childSelections (selections props).

(** The handler [render] installs on the checkbox:
    [selection ? this._removeFieldFromSelections : this._addFieldToSelections]. *)
Definition onClick (fuel : nat) (schema : GraphQLSchema) (h : Store)
    (this : Instance) (props : Props) : completion (Store * Instance * list ref) :=
  match _getSelection h props with
  | Some _ =>
      let '(this, out) := _removeFieldFromSelections h this props in
      Normal (h, this, out)
  | None => _addFieldToSelections fuel schema h this props
  end.

(** [childSelections] of [render]: the nested selections of the found
    node, [[]] when it has no selection set or nothing is found. *)
Definition childSelections (h : Store) (props : Props) : list ref :=
  match _getSelection h props with
  | Some selection =>
      match h !! selection with
      | Some (Field {| f_selectionSet := Some selectionSet |}) =>
          GraphQL.selections selectionSet
      | _ => []
      end
  | None => []
  end.

(** No sibling is a Field node of the schema field. *)
Definition absent (h : Store) (props : Props) : Prop :=
  Forall (fun s => belongs h props s = false) (selections props).

(** The siblings are nodes of the store. *)
Definition allocated (h : Store) (xs : list ref) : Prop :=
  Forall (fun s => is_Some (h !! s)) xs.

(** The undo slot is empty or holds a Field node of the schema field. *)
Definition slotHolds (h : Store) (props : Props) (this : Instance) : Prop :=
  match _previousSelection this with
  | Some previous => belongs h props previous = true
  | None => True
  end.

End Component.
End FieldView.

(* ===================================================================== *)
(** * RootView: the operation definition of one kind in the document      *)
(* ===================================================================== *)

Module RootView.
Import JS GraphQL.

Record Props := {
  operation : OperationTypeNode;
  parsedQuery : DocumentNode
}.

Record Instance := { _previousOperationDef : option ref }.

(** [d.kind === 'OperationDefinition' && d.operation === this.props.operation] *)
Definition matches (h : Store) (props : Props) (d : ref) : bool :=
  match h !! d with
  | Some (OperationDefinition node) => operation_eqb (o_operation node) (operation props)
  | _ => false
  end.

Definition synthesized (props : Props) : OperationDefinitionNode :=
  {| o_operation := operation props;
     o_name := None;
     o_variableDefinitions := None;
     o_directives := None;
     o_selectionSet := {| selections := [] |} |}.

Definition _getOperationDef (h : Store) (props : Props) (parsedQuery : DocumentNode)
  : completion (Store * ref) :=
  let operation := List.find (matches h props) (definitions parsedQuery) in
  let '(result, h) :=
    match operation with
    | Some operation => (operation, h)
    | None => alloc h (OperationDefinition (synthesized props))
    end in
  match h !! result with
  | Some (OperationDefinition _) => Normal (h, result)
  | _ => Throw "invalid operation"
  end.

(** The operation definition [operationDef] refers to.  The code reads
    [operationDef.selectionSet.selections] of it, a [TypeError] on a
    node without a selection set; the reference is typed
    [OperationDefinitionNode], and the model stops at any other node. *)
Definition operationNode (h : Store) (operationDef : ref)
  : completion OperationDefinitionNode :=
  match h !! operationDef with
  | Some (OperationDefinition node) => Normal node
  | _ => Throw "TypeError: Cannot read property 'selections' of undefined"
  end.

Definition withSelections (node : OperationDefinitionNode) (selections : list ref)
  : OperationDefinitionNode :=
  {| o_operation := o_operation node;
     o_name := o_name node;
     o_variableDefinitions := o_variableDefinitions node;
     o_directives := o_directives node;
     o_selectionSet := {| selections := selections |} |}.

(** The result is the store, the instance and the document handed to
    [print] and [this.props.onEdit]. *)
Definition _modifySelections (h : Store) (this : Instance) (props : Props)
    (selections : list ref) : completion (Store * Instance * DocumentNode) :=
  let parsedQuery := parsedQuery props in
  located <- _getOperationDef h props parsedQuery ;;
  let '(h, operationDef) := located in
  node <- operationNode h operationDef ;;
  let operationDef :=
    match GraphQL.selections (o_selectionSet node), _previousOperationDef this with
    | [], Some previous => previous
    | _, _ => operationDef
    end in
  match selections with
  | [] =>
      let this := {| _previousOperationDef := Some operationDef |} in
      Normal (h, this,
              {| definitions :=
                   List.filter (fun d => negb (ref_eqb d operationDef))
                     (definitions parsedQuery) |})
  | _ =>
      node <- operationNode h operationDef ;;
      let '(newOperationDef, h) :=
        alloc h (OperationDefinition (withSelections node selections)) in
      let replaced := existsb (fun op => ref_eqb op operationDef)
                        (definitions parsedQuery) in
      let newDefinitions :=
        map (fun op => if ref_eqb op operationDef then newOperationDef else op)
          (definitions parsedQuery) in
      Normal (h, this,
              {| definitions :=
                   if replaced then newDefinitions
                   else newOperationDef :: newDefinitions |})
  end.

(** A document as [parse] produces it: its definitions are nodes of the
    store, and an operation definition selects at least one thing (the
    grammar has no empty selection set). *)
Definition wellFormed (h : Store) (doc : DocumentNode) : Prop :=
  forall d, In d (definitions doc) ->
    exists node, h !! d = Some node
      /\ forall o, node = OperationDefinition o ->
                   GraphQL.selections (o_selectionSet o) <> [].

(** What the instance variable holds: nothing, or an operation
    definition of the kind of this view. *)
Definition remembers (h : Store) (props : Props) (this : Instance) : Prop :=
  match _previousOperationDef this with
  | Some previous =>
      exists o, h !! previous = Some (OperationDefinition o)
                /\ o_operation o = operation props
  | None => True
  end.

(** The definition the edit starts from when the document has none of
    the kind: the remembered one, else the synthesized one. *)
Definition editBase (h : Store) (props : Props) (this : Instance)
  : OperationDefinitionNode :=
  match _previousOperationDef this with
  | Some previous =>
      match h !! previous with
      | Some (OperationDefinition o) => o
      | _ => synthesized props
      end
  | None => synthesized props
  end.

End RootView.

(* ===================================================================== *)
(** * AbstractView: the inline fragment of one implementing type          *)
(* ===================================================================== *)

Module AbstractView.
Import JS GraphQL.

Section Component.
Context `{!Host}.

(** The object type a fragment is scoped to: [implementingType.name] and
    [implementingType.getFields()]. *)
Record ObjectType := {
  name : string;
  getFields : GraphQLFieldMap
}.

Record Props := {
  implementingType : ObjectType;
  selections : list ref;
  getDefaultFieldNames : ObjectType -> list string
}.

Record Instance := { _previousSelection : option ref }.

(** [selection.kind === 'InlineFragment' && selection.typeCondition &&
    this.props.implementingType.name === selection.typeCondition.name.value] *)
Definition scoped (h : Store) (props : Props) (selection : ref) : bool :=
  match h !! selection with
  | Some (InlineFragment node) =>
      match i_typeCondition node with
      | Some typeCondition =>
          String.eqb (name (implementingType props)) (value typeCondition)
      | None => false
      end
  | _ => false
  end.

Definition _getSelection (h : Store) (props : Props) : option ref :=
  let selection := List.find (scoped h props) (selections props) in
  match selection with
  | None => None
  | Some selection =>
      match h !! selection with
      | Some (InlineFragment _) => Some selection
      | _ => None
      end
  end.

(** [fieldNames.map(fieldName => ({kind: 'Field', name: {kind: 'Name',
    value: fieldName}}))]: one new Field object per name, with a name
    and nothing else. *)
Fixpoint fieldsNamed (h : Store) (fieldNames : list string) : Store * list ref :=
  match fieldNames with
  | [] => (h, [])
  | fieldName :: rest =>
      let '(node, h) :=
        alloc h (Field {| f_alias := None;
                          f_name := {| value := fieldName |};
                          f_arguments := None;
                          f_directives := None;
                          f_selectionSet := None |}) in
      let '(h, rest') := fieldsNamed h rest in
      (h, node :: rest')
  end.

(** The result is the store, the instance and the list passed to
    [this.props.modifySelections]. *)
Definition _addFragment (h : Store) (this : Instance) (props : Props)
  : Store * Instance * list ref :=
  match _previousSelection this with
  | Some previousSelection => (h, this, selections props ++ [previousSelection])
  | None =>
      let '(h, fields) :=
        fieldsNamed h (getDefaultFieldNames props (implementingType props)) in
      let '(node, h) :=
        alloc h (InlineFragment
                   {| i_typeCondition :=
                        Some {| value := name (implementingType props) |};
                      i_directives := None;
                      i_selectionSet := {| GraphQL.selections := fields |} |}) in
      (h, this, selections props ++ [node])
  end.

Definition _removeFragment (h : Store) (this : Instance) (props : Props)
  : Instance * list ref :=
  let thisSelection := _getSelection h props in
  let this := {| _previousSelection := thisSelection |} in
  (this, List.filter (fun s => negb (same s thisSelection)) (selections props)).

(** [selections.map(selection => selection === thisSelection ? {...} :
    selection)]; when nothing is found the list is passed on as it is. *)
Definition _modifyChildSelections (h : Store) (props : Props)
    (childSelections : list ref) : Store * list ref :=
  match _getSelection h props with
  | Some thisSelection =>
      match h !! thisSelection with
      | Some (InlineFragment node) =>
          FieldView.map_replacing h thisSelection
            (InlineFragment
               {| i_directives := i_directives node;
                  i_typeCondition :=
                    Some {| value := name (implementingType props) |};
                  i_selectionSet := {| GraphQL.selections := childSelections |} |})
            (selections props)
      | _ => (h, selections props)
      end
  | None => (h, selections props)
  end.

End Component.
End AbstractView.

(* ===================================================================== *)
(** * ArgView and InputArgView: arguments and input-object fields         *)
(* ===================================================================== *)

(** The handlers compare the argument objects of their list with [===],
    so the list they are given holds references into a store of the
    argument nodes, as the sibling lists do for selections. *)
Module Objects.
Import GraphQL.

Definition allocate {A} (h : gmap ref A) (node : A) : ref * gmap ref A :=
  let r := fresh (dom h) in (r, <[r := node]> h).

(** [xs.map(a => a === target ? {...} : a)]: every element that is the
    target object is replaced by a newly allocated one. *)
Fixpoint map_replacing {A} (h : gmap ref A) (target : ref) (replacement : A)
    (xs : list ref) : gmap ref A * list ref :=
  match xs with
  | [] => (h, [])
  | a :: rest =>
      if ref_eqb a target then
        let '(a', h) := allocate h replacement in
        let '(h, rest') := map_replacing h target replacement rest in
        (h, a' :: rest')
      else
        let '(h, rest') := map_replacing h target replacement rest in
        (h, a :: rest')
  end.

End Objects.

Module ArgView.
Import JS GraphQL Explorer Objects.

Section Component.
Context `{!Host}.

(** [arguments] is [this.props.selection.arguments], [None] when the
    property is missing. *)
Record Props := {
  arg : GraphQLArgument;
  arguments : option (list ref)
}.

Record Instance := { _previousArgSelection : option ref }.

(** [selection.arguments || []] *)
Definition argumentsOf (props : Props) : list ref :=
  match arguments props with Some args => args | None => [] end.

(** [arg.name.value === this.props.arg.name] *)
Definition named (h : gmap ref ArgumentNode) (props : Props) (a : ref) : bool :=
  match h !! a with
  | Some node => String.eqb (value (a_name node)) (arg_name (arg props))
  | None => false
  end.

Definition _getArgSelection (h : gmap ref ArgumentNode) (props : Props) : option ref :=
  List.find (named h props) (argumentsOf props).

(** The result is the instance and the list passed to
    [this.props.modifyArguments]. *)
Definition _removeArg (h : gmap ref ArgumentNode) (this : Instance) (props : Props)
  : Instance * list ref :=
  let argSelection := _getArgSelection h props in
  let this := {| _previousArgSelection := argSelection |} in
  (this, List.filter (fun a => negb (same a argSelection)) (argumentsOf props)).

(** [None] in the last component: [modifyArguments] is not called (the
    handler logs 'Unable to add arg for argType'). *)
Definition _addArg (fuel : nat) (schema : GraphQLSchema) (h : gmap ref ArgumentNode)
    (this : Instance) (props : Props)
  : completion (gmap ref ArgumentNode * Instance * option (list ref)) :=
  let argType := unwrapInputType (arg_type (arg props)) in
  made <-
    match _previousArgSelection this with
    | Some previous => Normal (h, Some previous)
    | None =>
        if isInputObjectType argType then
          let fields := getFields schema argType in
          sub <- defaultInputObjectFields fuel schema (Object_values fields) ;;
          let '(argSelection, h) :=
            allocate h {| a_name := {| value := arg_name (arg props) |};
                          a_value := ObjectValue sub |} in
          Normal (h, Some argSelection)
        else if isLeafType argType then
          v <- defaultValue argType ;;
          let '(argSelection, h) :=
            allocate h {| a_name := {| value := arg_name (arg props) |};
                          a_value := v |} in
          Normal (h, Some argSelection)
        else Normal (h, None)
    end ;;
  let '(h, argSelection) := made in
  match argSelection with
  | None => Normal (h, this, None)
  | Some argSelection => Normal (h, this, Some (argumentsOf props ++ [argSelection]))
  end.

(** [xs.map(a => a === target ? make() : a)], where making the new
    object may throw. *)
Fixpoint map_making {A} (h : gmap ref A) (target : ref) (make : completion A)
    (xs : list ref) : completion (gmap ref A * list ref) :=
  match xs with
  | [] => Normal (h, [])
  | a :: rest =>
      if ref_eqb a target then
        node <- make ;;
        let '(a', h) := allocate h node in
        mapped <- map_making h target make rest ;;
        let '(h, rest') := mapped in
        Normal (h, a' :: rest')
      else
        mapped <- map_making h target make rest ;;
        let '(h, rest') := mapped in
        Normal (h, a :: rest')
  end.

(** [targetValue] is [event.target.value].  [None] in the last
    component: [modifyArguments] is not called (the handler logs
    'missing arg selection when setting arg value' or 'Unable to handle
    non leaf types in setArgValue'). *)
Definition _setArgValue (h : gmap ref ArgumentNode) (props : Props)
    (targetValue : string)
  : completion (gmap ref ArgumentNode * option (list ref)) :=
  match _getArgSelection h props with
  | None => Normal (h, None)
  | Some argSelection =>
      let argType := unwrapInputType (arg_type (arg props)) in
      if negb (isLeafType argType) then Normal (h, None)
      else
        match h !! argSelection with
        | Some node =>
            mapped <-
              map_making h argSelection
                (v <- argValue argType targetValue ;;
                 Normal {| a_name := a_name node; a_value := v |})
                (argumentsOf props) ;;
            let '(h, out) := mapped in
            Normal (h, Some out)
        | None => Normal (h, None)
        end
  end.


End Component.
End ArgView.

Module InputArgView.
Import JS GraphQL Explorer Objects.

Section Component.
Context `{!Host}.

(** [fields] is [this.props.selection.fields], the fields of the object
    value. *)
Record Props := {
  arg : GraphQLInputField;
  fields : list ref
}.

Record Instance := { _previousArgSelection : option ref }.

Definition fieldName (node : ObjectFieldNode) : string :=
  match node with ObjectField name _ => value name end.

(** [field.name.value === this.props.arg.name] *)
Definition named (h : gmap ref ObjectFieldNode) (props : Props) (field : ref) : bool :=
  match h !! field with
  | Some node => String.eqb (fieldName node) (arg_name (arg props))
  | None => false
  end.

Definition _getArgSelection (h : gmap ref ObjectFieldNode) (props : Props)
  : option ref :=
  List.find (named h props) (fields props).

Definition _removeArg (h : gmap ref ObjectFieldNode) (this : Instance) (props : Props)
  : Instance * list ref :=
  let argSelection := _getArgSelection h props in
  let this := {| _previousArgSelection := argSelection |} in
  (this, List.filter (fun field => negb (same field argSelection)) (fields props)).

Definition _addArg (fuel : nat) (schema : GraphQLSchema) (h : gmap ref ObjectFieldNode)
    (this : Instance) (props : Props)
  : completion (gmap ref ObjectFieldNode * Instance * option (list ref)) :=
  let argType := unwrapInputType (arg_type (arg props)) in
  made <-
    match _previousArgSelection this with
    | Some previous => Normal (h, Some previous)
    | None =>
        if isInputObjectType argType then
          let fields := getFields schema argType in
          sub <- defaultInputObjectFields fuel schema (Object_values fields) ;;
          let '(argSelection, h) :=
            allocate h (ObjectField {| value := arg_name (arg props) |}
                          (ObjectValue sub)) in
          Normal (h, Some argSelection)
        else if isLeafType argType then
          v <- defaultValue argType ;;
          let '(argSelection, h) :=
            allocate h (ObjectField {| value := arg_name (arg props) |} v) in
          Normal (h, Some argSelection)
        else Normal (h, None)
    end ;;
  let '(h, argSelection) := made in
  match argSelection with
  | None => Normal (h, this, None)
  | Some argSelection => Normal (h, this, Some (fields props ++ [argSelection]))
  end.

Definition _setArgValue (h : gmap ref ObjectFieldNode) (props : Props)
    (targetValue : string)
  : completion (gmap ref ObjectFieldNode * option (list ref)) :=
  match _getArgSelection h props with
  | None => Normal (h, None)
  | Some argSelection =>
      let argType := unwrapInputType (arg_type (arg props)) in
      if negb (isLeafType argType) then Normal (h, None)
      else
        match h !! argSelection with
        | Some (ObjectField name _) =>
            mapped <-
              ArgView.map_making h argSelection
                (v <- argValue argType targetValue ;;
                 Normal (ObjectField name v))
                (fields props) ;;
            let '(h, out) := mapped in
            Normal (h, Some out)
        | None => Normal (h, None)
        end
  end.

(** [selection.fields.map(field => field.name.value === this.props.arg.name
    ? {...field, value: {kind: 'ObjectValue', fields}} : field)]: the
    test is on the name, every field of that name is replaced; the
    contents are read in the store [h0] of the call. *)
Fixpoint map_named (h0 h : gmap ref ObjectFieldNode) (props : Props)
    (childFields : list ObjectFieldNode) (xs : list ref)
  : gmap ref ObjectFieldNode * list ref :=
  match xs with
  | [] => (h, [])
  | field :: rest =>
      match h0 !! field with
      | Some (ObjectField name _) =>
          if String.eqb (value name) (arg_name (arg props)) then
            let '(field', h) :=
              allocate h (ObjectField name (ObjectValue childFields)) in
            let '(h, rest') := map_named h0 h props childFields rest in
            (h, field' :: rest')
          else
            let '(h, rest') := map_named h0 h props childFields rest in
            (h, field :: rest')
      | None =>
          let '(h, rest') := map_named h0 h props childFields rest in
          (h, field :: rest')
      end
  end.

Definition _modifyChildFields (h : gmap ref ObjectFieldNode) (props : Props)
    (childFields : list ObjectFieldNode) : gmap ref ObjectFieldNode * list ref :=
  map_named h h props childFields (fields props).

End Component.
End InputArgView.

(* ===================================================================== *)
(** * What the schema is assumed to be, and the seeds in the spec's words  *)
(* ===================================================================== *)

Module Seeds.
Import JS GraphQL Explorer.

Section Seeds.
Context `{!Host}.

(** An enum type of a validated schema declares at least one value. *)
Definition declaresValues (t : GraphQLType) : Prop :=
  match t with
  | GraphQLEnumType _ [] _ => False
  | _ => True
  end.

(** A scalar type, or an enum type that declares a value: what
    [argValue] and [defaultValue] are given. *)
Definition leafType (t : GraphQLType) : Prop :=
  isLeafType t = true /\ declaresValues t.

(** An input type, once unwrapped, is a scalar, an enum or an input
    object. *)
Definition inputType (t : GraphQLType) : Prop :=
  (isLeafType t = true \/ isInputObjectType t = true) /\ declaresValues t.

(** The arguments of a field, or the fields of an input object, have
    input types. *)
Definition inputTyped (args : list GraphQLArgument) : Prop :=
  Forall (fun a => inputType (unwrapInputType (arg_type a))) args.

Definition schemaInputTyped (schema : GraphQLSchema) : Prop :=
  forall n, inputTyped (Object_values (inputFields schema n)).

(** Required, in the specification's words: the type is wrapped in
    NonNull and no default is declared.  It is stated on the argument
    itself, not through the predicates the code calls. *)
Definition required (a : GraphQLArgument) : bool :=
  match arg_type a, arg_defaultValue a with
  | GraphQLNonNull _, None => true
  | _, _ => false
  end.

(** The input objects a list of fields requires. *)
Definition requiredInputObjects (fields : list GraphQLInputField) : list string :=
  flat_map
    (fun f =>
       if required f then
         match unwrapInputType (arg_type f) with
         | GraphQLInputObjectType n => [n]
         | _ => []
         end
       else [])
    fields.

(** No input object requires itself, directly or through others: the
    required input objects of an input object have a smaller rank. *)
Definition ranked (schema : GraphQLSchema) (rank : string -> nat) : Prop :=
  forall n m,
    In m (requiredInputObjects (Object_values (inputFields schema n))) ->
    rank m < rank n.

(** The same on a set [reached] of input objects that holds with an
    input object those it requires: none of them requires itself. *)
Definition rankedFrom (schema : GraphQLSchema) (rank : string -> nat)
    (reached : string -> Prop) : Prop :=
  forall n m,
    reached n ->
    In m (requiredInputObjects (Object_values (inputFields schema n))) ->
    reached m /\ rank m < rank n.

(** The default literal of a leaf type, as the specification lists it. *)
Inductive defaultLiteral : GraphQLType -> ValueNode -> Prop :=
| literal_Enum n v vs p :
    defaultLiteral (GraphQLEnumType n (v :: vs) p) (EnumValue v)
| literal_String p :
    defaultLiteral (GraphQLScalarType "String" p) (StringValue "")
| literal_Float p :
    defaultLiteral (GraphQLScalarType "Float" p) (FloatValue "1.5")
| literal_Int p :
    defaultLiteral (GraphQLScalarType "Int" p) (IntValue "10")
| literal_Boolean p :
    defaultLiteral (GraphQLScalarType "Boolean" p) (BooleanValue false)
| literal_other n p :
    n <> "String" -> n <> "Float" -> n <> "Int" -> n <> "Boolean" ->
    defaultLiteral (GraphQLScalarType n p) (StringValue "").

(** The seed of a required argument or input field of the given
    (unwrapped) type: the default literal of a leaf type, and for an
    input object the object value with one seeded field per required
    field, in declared order. *)
Inductive seed (schema : GraphQLSchema) : GraphQLType -> ValueNode -> Prop :=
| seed_leaf t v : defaultLiteral t v -> seed schema t v
| seed_object n nodes :
    Forall2
      (fun f node =>
         exists v, node = ObjectField {| value := arg_name f |} v
                   /\ seed schema (unwrapInputType (arg_type f)) v)
      (List.filter required (Object_values (inputFields schema n)))
      nodes ->
    seed schema (GraphQLInputObjectType n) (ObjectValue nodes).

(** The object field of a required input field. *)
Definition seededField (schema : GraphQLSchema) (f : GraphQLInputField)
    (node : ObjectFieldNode) : Prop :=
  exists v, node = ObjectField {| value := arg_name f |} v
            /\ seed schema (unwrapInputType (arg_type f)) v.



End Seeds.
End Seeds.

(* ===================================================================== *)
(** * The default-selection policy in the specification's words           *)
(* ===================================================================== *)

Module Policy.
Import JS GraphQL Explorer.

Section Policy.
Context `{!Host}.

(** A leaf-typed field: its type unwraps, through List and NonNull, to a
    scalar or an enum. *)
Definition leafTyped (f : GraphQLField) : bool :=
  isLeafType (unwrapOutputType (field_type f)).

(** The field as [defaultGetDefaultFieldNames] tests it. *)
Definition leafAsGiven (fields : GraphQLFieldMap) (fieldName : string) : bool :=
  match get fields fieldName with
  | Some f => isLeafType (field_type f)
  | None => false
  end.

(** First matching rule wins: [id] (plus [email], else [name]), else
    [edges], else [node], else [nodes], else up to the first two
    leaf-typed fields in declared order. *)
Definition selectDefaultFields (fields : GraphQLFieldMap) : list string :=
  if has fields "id" then
    "id" :: (if has fields "email" then ["email"]
             else if has fields "name" then ["name"] else [])
  else if has fields "edges" then ["edges"]
  else if has fields "node" then ["node"]
  else if has fields "nodes" then ["nodes"]
  else firstn 2 (map fst (List.filter (fun kf => leafTyped (snd kf)) fields)).

End Policy.
End Policy.

(* ===================================================================== *)
(** * Sample data: a host, a schema and documents to run the code on      *)
(* ===================================================================== *)

Module Sample.
Import JS GraphQL.

(** A host with undefined, booleans and strings; its [JSON.parse] knows
    the literals [true] and [false] and rejects the other texts used
    below, none of which is JSON. *)
Inductive jsvalue :=
| undefined
| boolean (b : bool)
| str (s : string).

#[export] Instance host : Host := {|
  Value := jsvalue;
  ToBoolean v :=
    match v with
    | undefined => false
    | boolean b => b
    | str s => negb (String.eqb s "")
    end;
  ToString v :=
    match v with
    | undefined => Gives "undefined"
    | boolean true => Gives "true"
    | boolean false => Gives "false"
    | str s => Gives s
    end;
  as_boolean v := match v with boolean b => Some b | _ => None end;
  JSON_parse s :=
    if String.eqb s "true" then Gives (boolean true)
    else if String.eqb s "false" then Gives (boolean false)
    else Raises "SyntaxError"
|}.

(** Plugins over arguments given by the name of their type; a rendering
    is the name of the control. *)
Definition plugin (accepts control : string)
  : ScalarInputPluginManager.Plugin string unit unit string :=
  {| ScalarInputPluginManager.canProcess := String.eqb accepts;
     ScalarInputPluginManager.render := fun _ _ _ => control |}.

Definition isDigit (c : ascii) : bool :=
  (48 <=? nat_of_ascii c)%nat && (nat_of_ascii c <=? 57)%nat.

Definition parseInt (s : string) : outcome jsvalue :=
  if negb (String.eqb s "") && forallb isDigit (list_ascii_of_string s)
  then Gives (str s)
  else Raises "Int cannot represent non-integer value".

Definition parseText (s : string) : outcome jsvalue := Gives (str s).

Definition IntType := GraphQLScalarType "Int" parseInt.
Definition FloatType := GraphQLScalarType "Float" parseInt.
Definition StringType := GraphQLScalarType "String" parseText.
Definition BooleanType := GraphQLScalarType "Boolean" parseText.

(** An enum whose [parseValue] gives [undefined] for a name it does not
    declare. *)
Definition ColorType :=
  GraphQLEnumType "Color" ["RED"; "GREEN"]
    (fun s => if String.eqb s "RED" || String.eqb s "GREEN"
              then Gives (str s) else Gives undefined).

(** A schema: [createUser(input: UserInput!, count: Int!, label: String,
    color: Color!, notify: Boolean! = true, tags: [String!]!)] over the
    input objects
    [UserInput { name: String!, address: AddressInput!, nick: String }]
    and [AddressInput { city: String!, floor: Float! }]. *)
Definition required (name : string) (t : GraphQLType) : GraphQLArgument :=
  {| arg_name := name; arg_type := GraphQLNonNull t; arg_defaultValue := None |}.

Definition optional (name : string) (t : GraphQLType) : GraphQLArgument :=
  {| arg_name := name; arg_type := t; arg_defaultValue := None |}.

Definition schema : GraphQLSchema :=
  {| inputFields n :=
       if String.eqb n "UserInput" then
         [("name", required "name" StringType);
          ("address", required "address" (GraphQLInputObjectType "AddressInput"));
          ("nick", optional "nick" StringType)]
       else if String.eqb n "AddressInput" then
         [("city", required "city" StringType);
          ("floor", required "floor" FloatType)]
       else [] |}.

Definition rank (n : string) : nat :=
  if String.eqb n "UserInput" then 1 else 0.

Definition createUser : GraphQLField :=
  {| field_name := "createUser";
     field_type := GraphQLObjectType "User";
     field_args :=
       [required "input" (GraphQLInputObjectType "UserInput");
        required "count" IntType;
        optional "label" StringType;
        required "color" ColorType;
        {| arg_name := "notify"; arg_type := GraphQLNonNull BooleanType;
           arg_defaultValue := Some (boolean true) |};
        required "tags" (GraphQLList (GraphQLNonNull StringType))] |}.

Definition createUserArguments : list ArgumentNode :=
  [{| a_name := {| value := "input" |};
      a_value :=
        ObjectValue
          [ObjectField {| value := "name" |} (StringValue "");
           ObjectField {| value := "address" |}
             (ObjectValue [ObjectField {| value := "city" |} (StringValue "");
                           ObjectField {| value := "floor" |} (FloatValue "1.5")])] |};
   {| a_name := {| value := "count" |}; a_value := IntValue "10" |};
   {| a_name := {| value := "color" |}; a_value := EnumValue "RED" |};
   {| a_name := {| value := "tags" |}; a_value := StringValue "" |}].

(** The fields of an object type
    [Article { title: String!, tags: [String], count: Int, rating: Float }]. *)
Definition articleFields : GraphQLFieldMap :=
  [("title", {| field_name := "title"; field_type := GraphQLNonNull StringType;
                field_args := [] |});
   ("tags", {| field_name := "tags"; field_type := GraphQLList StringType;
               field_args := [] |});
   ("count", {| field_name := "count"; field_type := IntType; field_args := [] |});
   ("rating", {| field_name := "rating"; field_type := FloatType;
                 field_args := [] |})].

(** The selections of [{ me: viewer(first: 3) { name } posts posts }]:
    [viewer] is at reference 1 and its nested [name] at 4; the two
    [posts] nodes, at references 2 and 3, are structurally identical. *)
Definition leaf (name : string) : ASTNode :=
  Field {| f_alias := None; f_name := {| value := name |};
           f_arguments := Some []; f_directives := Some [];
           f_selectionSet := None |}.

Definition viewerNode (nested : ref) : FieldNode :=
  {| f_alias := Some {| value := "me" |};
     f_name := {| value := "viewer" |};
     f_arguments := Some [{| a_name := {| value := "first" |};
                             a_value := IntValue "3" |}];
     f_directives := Some [];
     f_selectionSet := Some {| selections := [nested] |} |}.

Definition store : Store :=
  <[1%positive := Field (viewerNode 4%positive)]>
    (<[2%positive := leaf "posts"]>
       (<[3%positive := leaf "posts"]>
          (<[4%positive := leaf "name"]> ∅))).

Definition siblings : list ref := [1; 2; 3]%positive.

Definition viewer : GraphQLField :=
  {| field_name := "viewer"; field_type := GraphQLObjectType "User";
     field_args := [optional "first" IntType] |}.

Definition posts : GraphQLField :=
  {| field_name := "posts"; field_type := GraphQLList (GraphQLObjectType "Post");
     field_args := [] |}.

Definition comments : GraphQLField :=
  {| field_name := "comments"; field_type := GraphQLObjectType "Comment";
     field_args := [] |}.

(** [query Dashboard($n: Int) { viewer ... }], removed from the document
    earlier and remembered at reference 7; [subscription { posts }] at
    reference 8. *)
Definition dashboard : OperationDefinitionNode :=
  {| o_operation := query;
     o_name := Some {| value := "Dashboard" |};
     o_variableDefinitions := Some [{| v_variable := {| value := "n" |};
                                       v_type := "Int" |}];
     o_directives := Some [];
     o_selectionSet := {| selections := [1%positive] |} |}.

Definition updates : OperationDefinitionNode :=
  {| o_operation := subscription;
     o_name := None;
     o_variableDefinitions := Some [];
     o_directives := Some [];
     o_selectionSet := {| selections := [2%positive] |} |}.

Definition documents : Store :=
  <[7%positive := OperationDefinition dashboard]>
    (<[8%positive := OperationDefinition updates]> store).

(** A parser that accepts exactly the text [{a}]. *)
Definition text_a : Text := [123; 97; 125]%N.
Definition document_a : DocumentNode := {| definitions := [7%positive] |}.
Definition parse (text : Text) : DocumentNode + string :=
  if bool_decide (text = text_a) then inl document_a
  else inr "Syntax Error".

(** [input Tree { label: String!, children: [Tree!]! }], which requires
    itself through a list, and a field [plant(tree: Tree!)]. *)
Definition treeSchema : GraphQLSchema :=
  {| inputFields n :=
       if String.eqb n "Tree" then
         [("label", required "label" StringType);
          ("children",
           required "children"
             (GraphQLList (GraphQLNonNull (GraphQLInputObjectType "Tree"))))]
       else [] |}.

Definition plant : GraphQLField :=
  {| field_name := "plant"; field_type := GraphQLObjectType "Tree";
     field_args := [required "tree" (GraphQLInputObjectType "Tree")] |}.

(** The selections of [{ ... on Bot { handle } id ... on User { id } }]
    under a field of an interface type: the fragment for [Bot] is at
    reference 1 with [handle] at 4, the direct field [id] at 2, the
    fragment for [User] at 3 with its [id] at 5. *)
Definition fragmentOn (type : string) (nested : ref) : ASTNode :=
  InlineFragment {| i_typeCondition := Some {| value := type |};
                    i_directives := Some [{| d_name := {| value := "include" |};
                                             d_arguments := [] |}];
                    i_selectionSet := {| selections := [nested] |} |}.

Definition fragments : Store :=
  <[1%positive := fragmentOn "Bot" 4%positive]>
    (<[2%positive := leaf "id"]>
       (<[3%positive := fragmentOn "User" 5%positive]>
          (<[4%positive := leaf "handle"]>
             (<[5%positive := leaf "id"]> ∅)))).

Definition userType : AbstractView.ObjectType :=
  {| AbstractView.name := "User";
     AbstractView.getFields :=
       [("id", {| field_name := "id"; field_type := GraphQLNonNull StringType;
                  field_args := [] |});
        ("email", {| field_name := "email"; field_type := StringType;
                     field_args := [] |})] |}.

Definition humanType : AbstractView.ObjectType :=
  {| AbstractView.name := "Human";
     AbstractView.getFields :=
       [("id", {| field_name := "id"; field_type := GraphQLNonNull StringType;
                  field_args := [] |});
        ("name", {| field_name := "name"; field_type := StringType;
                    field_args := [] |})] |}.

Definition fragmentProps (type : AbstractView.ObjectType) : AbstractView.Props :=
  {| AbstractView.implementingType := type;
     AbstractView.selections := [1; 2; 3]%positive;
     AbstractView.getDefaultFieldNames :=
       fun t => Explorer.defaultGetDefaultFieldNames (AbstractView.getFields t) |}.

(** The arguments of [viewer(first: 3, after: $cursor)]: the argument
    [first] at reference 1 and [after], a variable, at reference 2. *)
Definition argumentNodes : gmap ref ArgumentNode :=
  <[1%positive := {| a_name := {| value := "first" |}; a_value := IntValue "3" |}]>
    (<[2%positive := {| a_name := {| value := "after" |};
                        a_value := VariableValue {| value := "cursor" |} |}]> ∅).

Definition firstProps : ArgView.Props :=
  {| ArgView.arg := optional "first" IntType;
     ArgView.arguments := Some [1; 2]%positive |}.

Definition tagsProps : ArgView.Props :=
  {| ArgView.arg := optional "tags" (GraphQLList (GraphQLNonNull StringType));
     ArgView.arguments := Some [1; 2]%positive |}.

(** The fields of the object value [{ address: {}, name: "x", address: {} }]
    of an argument of type [UserInput]. *)
Definition objectFields : gmap ref ObjectFieldNode :=
  <[1%positive := ObjectField {| value := "address" |} (ObjectValue [])]>
    (<[2%positive := ObjectField {| value := "name" |} (StringValue "x")]>
       (<[3%positive := ObjectField {| value := "address" |} (ObjectValue [])]> ∅)).

Definition addressProps : InputArgView.Props :=
  {| InputArgView.arg := required "address" (GraphQLInputObjectType "AddressInput");
     InputArgView.fields := [1; 2; 3]%positive |}.

Definition DatePlugin := plugin "Date" "bundled date input".
Definition callerDate := plugin "Date" "caller date input".
Definition callerColor := plugin "Color" "caller color input".

End Sample.

(* ===================================================================== *)
(** * The plugin registry: first capable plugin, caller plugins first     *)
(* ===================================================================== *)

Section PluginRegistry.
Import ScalarInputPluginManager.
Variables Arg Style Handler Rendering : Type.
Let plugin := Plugin Arg Style Handler Rendering.

Lemma find_skips_rejecting (arg : Arg) (pre rest : list plugin) :
  Forall (rejects arg) pre ->
  List.find (fun p => canProcess p arg) (pre ++ rest)
  = List.find (fun p => canProcess p arg) rest.
Proof.
  induction 1 as [|q pre Hq _ IH]; simpl; [reflexivity|].
  unfold rejects in Hq. rewrite Hq. exact IH.
Qed.

Lemma find_none_rejecting (arg : Arg) (ps : list plugin) :
  Forall (rejects arg) ps -> List.find (fun p => canProcess p arg) ps = None.
Proof.
  intros H. rewrite <- (app_nil_r ps). rewrite find_skips_rejecting; auto.
Qed.

Lemma find_first_capable (arg : Arg) (ps : list plugin) (c : plugin) :
  In c ps -> canProcess c arg = true ->
  exists pre p post, ps = pre ++ p :: post /\ Forall (rejects arg) pre
                     /\ canProcess p arg = true.
Proof.
  induction ps as [|q ps IH]; simpl; [tauto|].
  intros Hin Hc. destruct (canProcess q arg) eqn:Hq.
  - exists [], q, ps. repeat split; auto.
  - destruct Hin as [->|Hin]; [congruence|].
    destruct (IH Hin Hc) as (pre & p & post & -> & Hpre & Hp).
    exists (q :: pre), p, post. repeat split; auto.
Qed.

(** C8. [process] returns the rendering of the first plugin, in list
    order, whose [canProcess] accepts the argument, and [null] when none
    accepts it.  A manager built with the bundled-plugins flag holds the
    caller's plugins followed by the bundled ones, so when a caller's
    plugin is capable the rendering is that of the first capable caller
    plugin, whether or not a bundled plugin is capable too. *)
Theorem process_first_capable_caller_first
    (DatePlugin : plugin) (caller : list plugin) (arg : Arg)
    (styleConfig : Style) (onChangeHandler : Handler) :
  (forall (m : Manager Arg Style Handler Rendering) pre p post,
      plugins m = pre ++ p :: post ->
      Forall (rejects arg) pre -> canProcess p arg = true ->
      process m arg styleConfig onChangeHandler
      = Some (render p arg styleConfig onChangeHandler))
  /\ (forall m : Manager Arg Style Handler Rendering,
         Forall (rejects arg) (plugins m) ->
         process m arg styleConfig onChangeHandler = None)
  /\ plugins (fst (constructor DatePlugin (Some caller) true))
     = caller ++ bundledPlugins DatePlugin
  /\ plugins (fst (constructor DatePlugin (Some caller) false)) = caller
  /\ (forall c, In c caller -> canProcess c arg = true ->
        exists pre p post,
          caller = pre ++ p :: post /\ Forall (rejects arg) pre
          /\ canProcess p arg = true
          /\ process (fst (constructor DatePlugin (Some caller) true))
               arg styleConfig onChangeHandler
             = Some (render p arg styleConfig onChangeHandler)).
Proof.
  assert (Hfirst : forall (m : Manager Arg Style Handler Rendering) pre p post,
             plugins m = pre ++ p :: post ->
             Forall (rejects arg) pre -> canProcess p arg = true ->
             process m arg styleConfig onChangeHandler
             = Some (render p arg styleConfig onChangeHandler)).
  { intros m pre p post Hm Hpre Hp. unfold process. rewrite Hm.
    rewrite find_skips_rejecting by assumption. simpl. rewrite Hp. reflexivity. }
  split; [exact Hfirst|]. split.
  { intros m Hall. unfold process. rewrite find_none_rejecting by assumption.
    reflexivity. }
  split; [reflexivity|]. split; [reflexivity|].
  intros c Hin Hc.
  destruct (find_first_capable arg caller c Hin Hc) as (pre & p & post & Heq & Hpre & Hp).
  exists pre, p, post. repeat split; try assumption.
  apply (Hfirst _ pre p (post ++ bundledPlugins DatePlugin)); try assumption.
  simpl. rewrite Heq, <- app_assoc. reflexivity.
Qed.

End PluginRegistry.

(** The caller's date plugin wins over the bundled one. *)
Lemma process_first_capable_caller_first_witness :
  ScalarInputPluginManager.process
    (fst (ScalarInputPluginManager.constructor Sample.DatePlugin
            (Some [Sample.callerColor; Sample.callerDate]) true))
    "Date" tt tt
  = Some "caller date input".
Proof.
  destruct (process_first_capable_caller_first string unit unit string
              Sample.DatePlugin [Sample.callerColor; Sample.callerDate]
              "Date" tt tt) as (_ & _ & _ & _ & H).
  destruct (H Sample.callerDate) as (pre & p & post & Heq & Hpre & Hp & Hres).
  - simpl. auto.
  - reflexivity.
  - rewrite Hres. clear Hres.
    destruct pre as [|q pre]; simpl in Heq.
    + injection Heq as <- _. discriminate Hp.
    + injection Heq as <- Heq. destruct pre as [|q' pre]; simpl in Heq.
      * injection Heq as <- _. reflexivity.
      * injection Heq as _ Heq. destruct pre; discriminate Heq.
Defined.

(* ===================================================================== *)
(** * The leaf-value encoder [argValue]                                   *)
(* ===================================================================== *)

Section Encoder.
Import JS GraphQL Explorer Seeds.
Context `{!Host}.

Lemma try_catch_returns {A} (c : completion A) (handler : string -> completion A) :
  c <> Exhausted -> (forall e, returns (handler e)) -> returns (try_catch c handler).
Proof.
  intros Hc Hh. destruct c as [a|e|]; simpl.
  - exists a. reflexivity.
  - apply Hh.
  - congruence.
Qed.

Lemma call_not_exhausted {A} (o : outcome A) : call o <> Exhausted.
Proof. destruct o; discriminate. Qed.

Lemma parsedText_not_exhausted argType raw : parsedText argType raw <> Exhausted.
Proof.
  unfold parsedText, parseValue.
  destruct argType as [n p|n vs p| | | | | |]; simpl; try discriminate;
    destruct (p raw) as [x|e]; simpl; try discriminate; apply call_not_exhausted.
Qed.

Lemma wrap_not_exhausted (c : completion string) (k : string -> ValueNode) :
  c <> Exhausted -> (s <- c ;; Normal (k s)) <> Exhausted.
Proof. destruct c; simpl; congruence. Qed.

(** C6. [argValue] returns a value for every scalar type and every enum
    type that declares a value, whatever the raw text.  For [Int] and
    [Float], when parsing the text (or converting the parsed value to a
    string) throws, the result is the String literal of the raw text,
    and when it succeeds it is the Int or Float literal of the parsed
    text.  For [Boolean], a raw text that [JSON.parse] rejects or turns
    into something that is not a boolean gives the literal [false].  For
    an enum, a parse that throws or gives a falsy value gives the first
    declared value. *)
Theorem argValue_total_with_fallbacks :
  (forall argType raw, leafType argType -> returns (argValue argType raw))
  /\ (forall n p raw e,
         n = "Int" \/ n = "Float" ->
         parsedText (GraphQLScalarType n p) raw = Throw e ->
         argValue (GraphQLScalarType n p) raw = Normal (StringValue raw))
  /\ (forall p raw s,
         parsedText (GraphQLScalarType "Int" p) raw = Normal s ->
         argValue (GraphQLScalarType "Int" p) raw = Normal (IntValue s))
  /\ (forall p raw s,
         parsedText (GraphQLScalarType "Float" p) raw = Normal s ->
         argValue (GraphQLScalarType "Float" p) raw = Normal (FloatValue s))
  /\ (forall p raw,
         (forall v, JSON_parse raw = Gives v -> as_boolean v = None) ->
         argValue (GraphQLScalarType "Boolean" p) raw = Normal (BooleanValue false))
  /\ (forall p raw v b,
         JSON_parse raw = Gives v -> as_boolean v = Some b ->
         argValue (GraphQLScalarType "Boolean" p) raw = Normal (BooleanValue b))
  /\ (forall n v vs p raw,
         (forall x, p raw = Gives x -> ToBoolean x = false) ->
         argValue (GraphQLEnumType n (v :: vs) p) raw = Normal (EnumValue v)).
Proof.
  repeat split.
  - (* totality *)
    intros argType raw [Hleaf Hvals].
    destruct argType as [n p|n vs p| | | | | |]; try discriminate Hleaf.
    + unfold argValue. simpl isScalarType. cbv iota.
      apply try_catch_returns; [|intros e; eexists; reflexivity].
      repeat match goal with
             | |- context [if ?b then _ else _] => destruct b
             end;
        try (apply wrap_not_exhausted, parsedText_not_exhausted).
      destruct (JSON_parse raw) as [x|e]; simpl; [|discriminate].
      destruct (as_boolean x); discriminate.
    + destruct vs as [|v vs]; [destruct Hvals|].
      unfold argValue, parseValue. simpl.
      destruct (p raw) as [x|e]; simpl; [|eexists; reflexivity].
      destruct (ToBoolean x); simpl; [|eexists; reflexivity].
      destruct (ToString x); simpl; eexists; reflexivity.
  - (* Int and Float: a failed parse *)
    intros n p raw e [-> | ->] Hfail; unfold argValue; simpl; rewrite Hfail;
      reflexivity.
  - intros p raw s Hs. unfold argValue. simpl. rewrite Hs. reflexivity.
  - intros p raw s Hs. unfold argValue. simpl. rewrite Hs. reflexivity.
  - (* Boolean: not a boolean *)
    intros p raw Hnot. unfold argValue. simpl.
    destruct (JSON_parse raw) as [x|e] eqn:Hx; simpl; [|reflexivity].
    rewrite (Hnot x eq_refl). reflexivity.
  - intros p raw v b Hv Hb. unfold argValue. simpl. rewrite Hv. simpl.
    rewrite Hb. reflexivity.
  - (* enum: first declared value *)
    intros n v vs p raw Hfalsy. unfold argValue, parseValue. simpl.
    destruct (p raw) as [x|e] eqn:Hx; simpl; [|reflexivity].
    rewrite (Hfalsy x eq_refl). reflexivity.
Qed.

End Encoder.

(** On the sample host: a text that is no integer, a text that is no
    boolean, and a name the enum does not declare. *)
Lemma argValue_total_with_fallbacks_witness :
  Explorer.argValue Sample.IntType "abc" = JS.Normal (GraphQL.StringValue "abc")
  /\ Explorer.argValue Sample.BooleanType "notabool"
     = JS.Normal (GraphQL.BooleanValue false)
  /\ Explorer.argValue Sample.ColorType "PURPLE" = JS.Normal (GraphQL.EnumValue "RED")
  /\ JS.returns (Explorer.argValue Sample.ColorType "GREEN").
Proof.
  destruct (@argValue_total_with_fallbacks Sample.host)
    as (Htotal & Hnumber & _ & _ & Hboolean & _ & Henum).
  split; [|split; [|split]].
  - apply (Hnumber "Int" Sample.parseInt "abc"
             "Int cannot represent non-integer value"); [left|]; reflexivity.
  - apply Hboolean. intros v Hv. discriminate Hv.
  - apply Henum. intros x Hx. injection Hx as <-. reflexivity.
  - apply Htotal. split; [reflexivity|exact I].
Defined.

(* ===================================================================== *)
(** * Default arguments of a newly added field                            *)
(* ===================================================================== *)

Section DefaultArguments.
Import JS GraphQL Explorer Seeds FieldView.
Context `{!Host}.

Lemma for_of_collect {A B} (body : list B -> A -> completion (list B))
    (keep : A -> bool) (P : A -> B -> Prop) (xs : list A) :
  (forall acc x, In x xs ->
     if keep x then exists y, body acc x = Normal (acc ++ [y]) /\ P x y
     else body acc x = Normal acc) ->
  forall acc, exists ys,
    for_of body xs acc = Normal (acc ++ ys) /\ Forall2 P (List.filter keep xs) ys.
Proof.
  induction xs as [|x xs IH]; intros Hbody acc; simpl.
  - exists []. rewrite app_nil_r. split; [reflexivity|constructor].
  - assert (Hrest : forall acc x', In x' xs ->
              if keep x' then exists y, body acc x' = Normal (acc ++ [y]) /\ P x' y
              else body acc x' = Normal acc).
    { intros acc' x' Hin. apply Hbody. right. exact Hin. }
    specialize (Hbody acc x (or_introl eq_refl)).
    destruct (keep x).
    + destruct Hbody as (y & -> & Hy). simpl.
      destruct (IH Hrest (acc ++ [y])) as (ys & -> & Hys).
      exists (y :: ys). rewrite <- app_assoc. split; [reflexivity|].
      constructor; assumption.
    + rewrite Hbody. simpl. apply IH, Hrest.
Qed.

Lemma defaultValue_literal (t : GraphQLType) :
  leafType t -> exists v, defaultValue t = Normal v /\ defaultLiteral t v.
Proof.
  intros [Hleaf Hvals].
  destruct t as [n p|n vs p| | | | | |]; try discriminate Hleaf.
  - unfold defaultValue, name_is. simpl.
    destruct (String.eqb_spec n "String") as [->|H1];
      [eexists; split; [reflexivity|constructor]|].
    destruct (String.eqb_spec n "Float") as [->|H2];
      [eexists; split; [reflexivity|constructor]|].
    destruct (String.eqb_spec n "Int") as [->|H3];
      [eexists; split; [reflexivity|constructor]|].
    destruct (String.eqb_spec n "Boolean") as [->|H4];
      [eexists; split; [reflexivity|constructor]|].
    eexists; split; [reflexivity|constructor; assumption].
  - destruct vs as [|v vs]; [destruct Hvals|].
    exists (EnumValue v). split; [reflexivity|constructor].
Qed.

Lemma leaf_not_input_object (t : GraphQLType) :
  isLeafType t = true -> isInputObjectType t = false.
Proof. destruct t; intros Hleaf; try reflexivity; discriminate Hleaf. Qed.


Lemma isRequiredInputField_required (f : GraphQLInputField) :
  isRequiredInputField f = required f.
Proof.
  unfold isRequiredInputField, required.
  destruct (arg_type f), (arg_defaultValue f); reflexivity.
Qed.


Lemma filter_isRequiredInputField (fields : list GraphQLInputField) :
  List.filter isRequiredInputField fields = List.filter required fields.
Proof. apply List.filter_ext. intros f. apply isRequiredInputField_required. Qed.

Lemma required_input_object (fields : list GraphQLInputField) f n :
  In f fields -> isRequiredInputField f = true ->
  unwrapInputType (arg_type f) = GraphQLInputObjectType n ->
  In n (requiredInputObjects fields).
Proof.
  intros Hin Hreq Hty. unfold requiredInputObjects. apply in_flat_map.
  exists f. split; [exact Hin|].
  rewrite <- isRequiredInputField_required, Hreq, Hty. left. reflexivity.
Qed.

Section Schema.
Variables (schema : GraphQLSchema) (rank : string -> nat) (reached : string -> Prop).
Hypothesis schema_typed : schemaInputTyped schema.
Hypothesis reached_ranked : rankedFrom schema rank reached.

(** One more unit of fuel than the ranks of the required input objects
    is enough. *)
Lemma defaultInputObjectFields_seeds_from (k : nat) :
  forall fields fuel,
    inputTyped fields ->
    (forall m, In m (requiredInputObjects fields) -> reached m /\ rank m < k) ->
    k < fuel ->
    exists nodes,
      defaultInputObjectFields fuel schema fields = Normal nodes
      /\ Forall2 (seededField schema) (List.filter required fields) nodes.
Proof.
  induction k as [|k IH]; intros fields fuel Htyped Hrank Hfuel;
    (destruct fuel as [|fuel]; [lia|]); rewrite <- filter_isRequiredInputField;
    simpl;
    match goal with
    | |- context [for_of ?body fields []] =>
        destruct (for_of_collect body isRequiredInputField (seededField schema) fields)
          with (acc := @nil ObjectFieldNode) as (nodes & Hrun & Hseeds);
          [|exists nodes; split; [exact Hrun|exact Hseeds]]
    end;
    intros acc f Hin;
    destruct (isRequiredInputField f) eqn:Hreq; try reflexivity;
    pose proof (proj1 (List.Forall_forall _ _) Htyped f Hin) as [[Hleaf|Hobj] Hvals].
  - destruct (defaultValue_literal _ (conj Hleaf Hvals)) as (v & Hv & Hlit).
    rewrite (leaf_not_input_object _ Hleaf).
    rewrite Hleaf, Hv. simpl. eexists. split; [reflexivity|].
    exists v. split; [reflexivity|]. apply seed_leaf, Hlit.
  - destruct (unwrapInputType (arg_type f)) as [| | | | |n| |] eqn:Hty;
      try discriminate Hobj.
    pose proof (Hrank n (required_input_object fields f n Hin Hreq Hty)). lia.
  - destruct (defaultValue_literal _ (conj Hleaf Hvals)) as (v & Hv & Hlit).
    rewrite (leaf_not_input_object _ Hleaf).
    rewrite Hleaf, Hv. simpl. eexists. split; [reflexivity|].
    exists v. split; [reflexivity|]. apply seed_leaf, Hlit.
  - destruct (unwrapInputType (arg_type f)) as [| | | | |n| |] eqn:Hty;
      try discriminate Hobj.
    pose proof (Hrank n (required_input_object fields f n Hin Hreq Hty)) as Hn.
    destruct (IH (Object_values (inputFields schema n)) fuel) as (sub & Hsub & Hseeds).
    + apply schema_typed.
    + intros m Hm. destruct (reached_ranked n m (proj1 Hn) Hm). split; [assumption|lia].
    + lia.
    + simpl. rewrite Hsub. simpl. eexists. split; [reflexivity|].
      exists (ObjectValue sub). split; [reflexivity|].
      rewrite Hty. apply seed_object, Hseeds.
Qed.


Lemma for_of_normal_ext {A S} (body body' : S -> A -> completion S) (xs : list A) :
  (forall acc x r, body acc x = Normal r -> body' acc x = Normal r) ->
  forall acc r, for_of body xs acc = Normal r -> for_of body' xs acc = Normal r.
Proof.
  intros Hext. induction xs as [|x xs IH]; intros acc r; simpl; [auto|].
  destruct (body acc x) as [acc'| |] eqn:Hstep; simpl; try discriminate.
  rewrite (Hext _ _ _ Hstep). simpl. apply IH.
Qed.

(** A call that returns with some fuel returns the same with more. *)
Lemma defaultInputObjectFields_more_fuel (fuel : nat) :
  forall fields nodes,
    defaultInputObjectFields fuel schema fields = Normal nodes ->
    forall fuel', fuel <= fuel' ->
      defaultInputObjectFields fuel' schema fields = Normal nodes.
Proof.
  induction fuel as [|fuel IH]; intros fields nodes Hrun fuel' Hle;
    [discriminate Hrun|].
  destruct fuel' as [|fuel']; [lia|]. simpl in *.
  revert Hrun. apply for_of_normal_ext. intros acc f r.
  destruct (isRequiredInputField f); [|auto].
  destruct (isInputObjectType (unwrapInputType (arg_type f))); [|auto].
  destruct (defaultInputObjectFields fuel schema _) as [sub| |] eqn:Hsub;
    simpl; try discriminate.
  rewrite (IH _ _ Hsub fuel') by lia. simpl. auto.
Qed.





End Schema.

(** When no input object of the schema requires itself, every input
    object can be reached. *)
Lemma ranked_from_all (schema : GraphQLSchema) (rank : string -> nat) :
  ranked schema rank -> rankedFrom schema rank (fun _ => True).
Proof. intros Hranked n m _ Hm. split; [exact I|exact (Hranked n m Hm)]. Qed.

Lemma defaultInputObjectFields_seeds (schema : GraphQLSchema) (rank : string -> nat) :
  schemaInputTyped schema -> ranked schema rank ->
  forall k fields fuel,
    inputTyped fields ->
    (forall m, In m (requiredInputObjects fields) -> rank m < k) ->
    k < fuel ->
    exists nodes,
      defaultInputObjectFields fuel schema fields = Normal nodes
      /\ Forall2 (seededField schema) (List.filter required fields) nodes.
Proof.
  intros Htyped Hranked k fields fuel Hfields Hrank Hfuel.
  apply (defaultInputObjectFields_seeds_from schema rank (fun _ => True) Htyped
           (ranked_from_all schema rank Hranked) k); [exact Hfields| |exact Hfuel].
  intros m Hm. split; [exact I|exact (Hrank m Hm)].
Qed.

End DefaultArguments.

Lemma sample_schema_typed : Seeds.schemaInputTyped Sample.schema.
Proof.
  intros n. unfold Seeds.inputTyped. simpl.
  destruct (String.eqb n "UserInput");
    [|destruct (String.eqb n "AddressInput")]; vm_compute;
    repeat (apply List.Forall_cons; [split; [|exact I]|]); try apply List.Forall_nil.
  all: first [left; reflexivity | right; reflexivity].
Qed.

Lemma sample_schema_ranked : Seeds.ranked Sample.schema Sample.rank.
Proof.
  intros n m. unfold Sample.rank. simpl.
  destruct (String.eqb_spec n "UserInput") as [->|Hn]; simpl.
  - vm_compute. intros [<-|[]]. vm_compute. lia.
  - destruct (String.eqb n "AddressInput"); vm_compute; tauto.
Qed.


(** The arguments the sample field gets, computed. *)
Example defaultArgs_createUser :
  Explorer.defaultArgs 3 Sample.schema Sample.createUser
  = JS.Normal Sample.createUserArguments.
Proof. reflexivity. Qed.





(* ===================================================================== *)
(** * The default-selection policy                                        *)
(* ===================================================================== *)

Section DefaultSelection.
Import JS GraphQL Explorer Policy.
Context `{!Host}.

Lemma collect_leaf_names (fields : GraphQLFieldMap) (keys acc : list string) :
  fold_left
    (fun leafFieldNames fieldName =>
       match get fields fieldName with
       | Some f =>
           if isLeafType (field_type f) then leafFieldNames ++ [fieldName]
           else leafFieldNames
       | None => leafFieldNames
       end)
    keys acc
  = acc ++ List.filter (leafAsGiven fields) keys.
Proof.
  revert acc. induction keys as [|k keys IH]; intros acc; simpl.
  - rewrite app_nil_r. reflexivity.
  - rewrite IH. unfold leafAsGiven at 2.
    destruct (get fields k) as [f|]; [|reflexivity].
    destruct (isLeafType (field_type f)); [|reflexivity].
    rewrite <- app_assoc. reflexivity.
Qed.

(** What the built-in policy computes: the first four rules as the
    specification has them, and then the first two fields whose type,
    as given and not unwrapped, is a scalar or an enum. *)
Lemma defaultGetDefaultFieldNames_rules (fields : GraphQLFieldMap) :
  defaultGetDefaultFieldNames fields =
  if has fields "id" then
    "id" :: (if has fields "email" then ["email"]
             else if has fields "name" then ["name"] else [])
  else if has fields "edges" then ["edges"]
  else if has fields "node" then ["node"]
  else if has fields "nodes" then ["nodes"]
  else firstn 2 (List.filter (leafAsGiven fields) (Object_keys fields)).
Proof.
  unfold defaultGetDefaultFieldNames.
  destruct (has fields "id").
  { destruct (has fields "email"); [reflexivity|].
    destruct (has fields "name"); reflexivity. }
  destruct (has fields "edges"); [reflexivity|].
  destruct (has fields "node"); [reflexivity|].
  destruct (has fields "nodes"); [reflexivity|].
  rewrite collect_leaf_names. reflexivity.
Qed.

Lemma get_of_entry {A} (fields : list (string * A)) k v :
  NoDup (map fst fields) -> In (k, v) fields -> get fields k = Some v.
Proof.
  induction fields as [|[k' v'] fields IH]; simpl; [tauto|].
  intros Hnd [Heq|Hin].
  - injection Heq as -> ->. rewrite String.eqb_refl. reflexivity.
  - inversion Hnd as [|? ? Hk' Hnd']; subst.
    destruct (String.eqb_spec k' k) as [->|Hne]; [|auto].
    exfalso. apply Hk'. apply list_elem_of_In.
    apply (in_map fst fields (k, v)), Hin.
Qed.

(** The policy of the source agrees with the specification's on every
    type none of whose leaf-typed fields is wrapped. *)
Lemma defaultGetDefaultFieldNames_unwrapped_leaves (fields : GraphQLFieldMap) :
  NoDup (map fst fields) ->
  Forall (fun kf => isLeafType (field_type (snd kf)) = leafTyped (snd kf)) fields ->
  defaultGetDefaultFieldNames fields = selectDefaultFields fields.
Proof.
  intros Hnd Hall. rewrite defaultGetDefaultFieldNames_rules.
  unfold selectDefaultFields, Object_keys.
  repeat match goal with
         | |- (if ?b then _ else _) = (if ?b then _ else _) =>
             destruct b; [reflexivity|]
         end.
  f_equal.
  assert (Hsub : forall l, incl l fields ->
            List.filter (leafAsGiven fields) (map fst l)
            = map fst (List.filter (fun kf => leafTyped (snd kf)) l)).
  { induction l as [|[k f] l IH]; intros Hincl; simpl; [reflexivity|].
    unfold leafAsGiven at 1.
    rewrite (get_of_entry fields k f Hnd) by (apply Hincl; left; reflexivity).
    pose proof (proj1 (List.Forall_forall _ _) Hall (k, f)
                  (Hincl _ (or_introl eq_refl))) as Heq.
    simpl in Heq. rewrite Heq.
    rewrite IH by (intros x Hx; apply Hincl; right; exact Hx).
    destruct (leafTyped f); reflexivity. }
  apply Hsub, incl_refl.
Qed.

End DefaultSelection.

(** C2. On an object type whose first leaf-typed fields are wrapped
    ([title: String!], [tags: [String]]) the built-in policy passes
    over them and selects [count] and [rating], where the policy of the
    specification selects [title] and [tags]. *)
Theorem defaultGetDefaultFieldNames_skips_wrapped_leaves :
  Explorer.defaultGetDefaultFieldNames Sample.articleFields = ["count"; "rating"]
  /\ Policy.selectDefaultFields Sample.articleFields = ["title"; "tags"].
Proof. split; reflexivity. Qed.

(* ===================================================================== *)
(** * FieldView: remove, add, and the bubbling of arguments               *)
(* ===================================================================== *)

Section FieldViewSync.
Import JS GraphQL Explorer FieldView.
Context `{!Host}.

Lemma ref_eqb_eq (a b : ref) : ref_eqb a b = true <-> a = b.
Proof. apply Pos.eqb_eq. Qed.

Lemma ref_eqb_neq (a b : ref) : ref_eqb a b = false <-> a <> b.
Proof. apply Pos.eqb_neq. Qed.

Lemma belongs_is_field h props s :
  belongs h props s = true -> exists node, h !! s = Some (Field node).
Proof.
  unfold belongs. destruct (h !! s) as [[node| | | | |]|]; try discriminate.
  intros _. exists node. reflexivity.
Qed.

Lemma find_first {A} (p : A -> bool) (pre post : list A) (x : A) :
  Forall (fun y => p y = false) pre -> p x = true ->
  List.find p (pre ++ x :: post) = Some x.
Proof.
  induction 1 as [|y pre Hy _ IH]; intros Hx; simpl.
  - rewrite Hx. reflexivity.
  - rewrite Hy. apply IH, Hx.
Qed.

Lemma find_none_all {A} (p : A -> bool) (xs : list A) :
  Forall (fun y => p y = false) xs -> List.find p xs = None.
Proof.
  induction 1 as [|y xs Hy _ IH]; simpl; [reflexivity|]. rewrite Hy. exact IH.
Qed.

Lemma find_split {A} (p : A -> bool) (xs : list A) (x : A) :
  List.find p xs = Some x ->
  exists pre post, xs = pre ++ x :: post /\ Forall (fun y => p y = false) pre
                   /\ p x = true.
Proof.
  induction xs as [|y xs IH]; simpl; [discriminate|].
  destruct (p y) eqn:Hy.
  - intros [= ->]. exists [], xs. repeat split; auto.
  - intros Hfind. destruct (IH Hfind) as (pre & post & -> & Hpre & Hx).
    exists (y :: pre), post. repeat split; auto.
Qed.

Lemma _getSelection_first h props pre node post :
  selections props = pre ++ node :: post ->
  Forall (fun s => belongs h props s = false) pre ->
  belongs h props node = true ->
  _getSelection h props = Some node.
Proof.
  intros Hsel Hpre Hnode. unfold _getSelection.
  rewrite Hsel, (find_first _ pre post node Hpre Hnode).
  destruct (belongs_is_field _ _ _ Hnode) as (f & ->). reflexivity.
Qed.

Lemma _getSelection_found h props node :
  _getSelection h props = Some node ->
  exists pre post f,
    selections props = pre ++ node :: post
    /\ Forall (fun s => belongs h props s = false) pre
    /\ belongs h props node = true
    /\ h !! node = Some (Field f)
    /\ value (f_name f) = field_name (field props).
Proof.
  unfold _getSelection.
  destruct (List.find (belongs h props) (selections props)) as [s|] eqn:Hfind;
    [|discriminate].
  destruct (find_split _ _ _ Hfind) as (pre & post & Hsel & Hpre & Hs).
  pose proof Hs as Hs'. unfold belongs in Hs'.
  destruct (h !! s) as [[f| | | | |]|] eqn:Hlook; try discriminate.
  intros [= <-]. exists pre, post, f. repeat split; auto.
  symmetry. apply String.eqb_eq, Hs'.
Qed.

Lemma filter_other_than_all (node : ref) (xs : list ref) :
  ~ In node xs -> List.filter (other_than node) xs = xs.
Proof.
  induction xs as [|x xs IH]; simpl; [reflexivity|]. intros Hnot.
  unfold other_than at 1.
  destruct (ref_eqb x node) eqn:Hx; simpl.
  - apply ref_eqb_eq in Hx. tauto.
  - rewrite IH by tauto. reflexivity.
Qed.

Lemma first_not_before h props pre node :
  Forall (fun s => belongs h props s = false) pre ->
  belongs h props node = true -> ~ In node pre.
Proof.
  intros Hpre Hnode Hin.
  pose proof (proj1 (List.Forall_forall _ _) Hpre node Hin). congruence.
Qed.

Lemma remove_found h this props node :
  _getSelection h props = Some node ->
  _removeFieldFromSelections h this props
  = ({| _previousSelection := Some node |},
     List.filter (other_than node) (selections props)).
Proof.
  intros Hget. unfold _removeFieldFromSelections. rewrite Hget. reflexivity.
Qed.

(** C1. When the sibling list holds a Field node of the schema field,
    remove stores the first such node in the undo slot, whatever the
    slot held, and passes on the siblings without it; add, run next on
    that list, passes on the same list with that very node appended,
    allocates nothing and leaves every stored node as it was, so the
    node comes back with its alias, arguments and nested selection set;
    the slot still holds the node after the add.  On any other sibling
    list (the one parsed from the text that remove emitted) add appends
    the same node in the same way. *)
Theorem remove_then_add_restores_node
    (fuel : nat) (schema : GraphQLSchema) (h : Store) (this : Instance)
    (props : Props) (node : ref) :
  _getSelection h props = Some node ->
  let removed := _removeFieldFromSelections h this props in
  fst removed = {| _previousSelection := Some node |}
  /\ snd removed = List.filter (other_than node) (selections props)
  /\ _addFieldToSelections fuel schema h (fst removed)
       {| field := field props; selections := snd removed |}
     = Normal (h, {| _previousSelection := Some node |},
               List.filter (other_than node) (selections props) ++ [node])
  /\ (forall (h' : Store) (siblings : list ref),
         _addFieldToSelections fuel schema h' (fst removed)
           {| field := field props; selections := siblings |}
         = Normal (h', {| _previousSelection := Some node |}, siblings ++ [node]))
  /\ (forall s, In s (List.filter (other_than node) (selections props))
                <-> In s (selections props) /\ s <> node)
  /\ exists f, h !! node = Some (Field f)
               /\ value (f_name f) = field_name (field props).
Proof.
  intros Hget. cbv zeta. rewrite (remove_found h this props node Hget).
  cbn [fst snd].
  split; [reflexivity|]. split; [reflexivity|]. split; [reflexivity|].
  split; [reflexivity|]. split.
  - intros s. rewrite filter_In. unfold other_than.
    rewrite negb_true_iff, ref_eqb_neq. tauto.
  - destruct (_getSelection_found _ _ _ Hget) as (pre & post & f & _ & _ & _ & Hf & Hname).
    exists f. split; assumption.
Qed.

(** C7. The first Field node of the schema field goes to the undo slot,
    and the siblings are passed on without that object: the nodes before
    it all stay, and of the nodes after it only further occurrences of
    the same object go.  A node at another reference that has the same
    contents, and so the same name, stays; when the object occurs once
    the result is the list with that one element taken out, in the
    original order. *)
Theorem remove_excludes_by_identity
    (h : Store) (this : Instance) (props : Props)
    (pre post : list ref) (node twin : ref) :
  selections props = pre ++ node :: post ->
  Forall (fun s => belongs h props s = false) pre ->
  belongs h props node = true ->
  In twin post -> twin <> node -> h !! twin = h !! node ->
  belongs h props twin = true
  /\ _removeFieldFromSelections h this props
     = ({| _previousSelection := Some node |},
        pre ++ List.filter (other_than node) post)
  /\ In twin (pre ++ List.filter (other_than node) post)
  /\ ~ In node (pre ++ List.filter (other_than node) post)
  /\ (forall s, In s (pre ++ post) -> s <> node ->
        In s (pre ++ List.filter (other_than node) post))
  /\ (~ In node post ->
      _removeFieldFromSelections h this props
      = ({| _previousSelection := Some node |}, pre ++ post)).
Proof.
  intros Hsel Hpre Hnode Htwin Hne Hsame.
  assert (Hkeeps : forall s, In s (pre ++ post) -> s <> node ->
                     In s (pre ++ List.filter (other_than node) post)).
  { intros s Hs Hs'. apply in_app_iff. apply in_app_iff in Hs.
    destruct Hs as [Hin|Hin]; [left; exact Hin|right].
    apply filter_In. split; [exact Hin|].
    unfold other_than. apply negb_true_iff, ref_eqb_neq. exact Hs'. }
  split; [unfold belongs in *; rewrite Hsame; exact Hnode|].
  pose proof (first_not_before _ _ _ _ Hpre Hnode) as Hnotpre.
  assert (Hrun : _removeFieldFromSelections h this props
                 = ({| _previousSelection := Some node |},
                    pre ++ List.filter (other_than node) post)).
  { rewrite (remove_found h this props node)
      by (eapply _getSelection_first; eassumption).
    rewrite Hsel, List.filter_app, (filter_other_than_all node pre Hnotpre). simpl.
    unfold other_than at 1. rewrite (proj2 (ref_eqb_eq node node) eq_refl).
    reflexivity. }
  split; [exact Hrun|]. split; [|split; [|split; [exact Hkeeps|]]].
  - apply Hkeeps; [apply in_app_iff; right; exact Htwin|exact Hne].
  - intros Hin. apply in_app_iff in Hin. destruct Hin as [Hin|Hin]; [tauto|].
    apply filter_In in Hin. destruct Hin as [_ Hin]. unfold other_than in Hin.
    rewrite (proj2 (ref_eqb_eq node node) eq_refl) in Hin. discriminate Hin.
  - intros Hnotpost. rewrite Hrun, (filter_other_than_all node post Hnotpost).
    reflexivity.
Qed.

(** C9. When no Field node of the sibling list belongs to the schema
    field, remove passes on the same list, and the undo slot holds
    nothing afterwards, whatever it held before. *)
Theorem remove_absent_clears_slot (h : Store) (this : Instance) (props : Props) :
  Forall (fun s => belongs h props s = false) (selections props) ->
  _removeFieldFromSelections h this props
  = ({| _previousSelection := None |}, selections props).
Proof.
  intros Hnone. unfold _removeFieldFromSelections, _getSelection.
  rewrite (find_none_all _ _ Hnone). cbn [same negb].
  f_equal. clear Hnone.
  induction (selections props) as [|s l IH]; simpl; [reflexivity|].
  rewrite IH. reflexivity.
Qed.

End FieldViewSync.

(** Toggling [viewer] off and on: the [viewer] object, reference 1, with
    its alias, argument and nested selection, moves to the end. *)
Lemma remove_then_add_restores_node_witness :
  let props := {| FieldView.field := Sample.viewer;
                  FieldView.selections := Sample.siblings |} in
  let removed :=
    FieldView._removeFieldFromSelections Sample.store
      {| FieldView._previousSelection := Some 2%positive |} props in
  FieldView._addFieldToSelections 0 Sample.schema Sample.store (fst removed)
    {| FieldView.field := Sample.viewer; FieldView.selections := snd removed |}
  = JS.Normal (Sample.store, {| FieldView._previousSelection := Some 1%positive |},
               [2; 3; 1]%positive).
Proof.
  destruct (remove_then_add_restores_node 0 Sample.schema Sample.store
              {| FieldView._previousSelection := Some 2%positive |}
              {| FieldView.field := Sample.viewer;
                 FieldView.selections := Sample.siblings |}
              1%positive eq_refl) as (_ & _ & Hadd & _).
  exact Hadd.
Defined.

(** Of the two identical [posts] nodes only the first is taken out. *)
Lemma remove_excludes_by_identity_witness :
  Sample.store !! 3%positive = Sample.store !! 2%positive
  /\ FieldView._removeFieldFromSelections Sample.store
       {| FieldView._previousSelection := None |}
       {| FieldView.field := Sample.posts;
          FieldView.selections := Sample.siblings |}
     = ({| FieldView._previousSelection := Some 2%positive |}, [1; 3]%positive).
Proof.
  split; [reflexivity|].
  destruct (remove_excludes_by_identity Sample.store
              {| FieldView._previousSelection := None |}
              {| FieldView.field := Sample.posts;
                 FieldView.selections := Sample.siblings |}
              [1%positive] [3%positive] 2%positive 3%positive)
    as (_ & Hrun & _).
  - reflexivity.
  - constructor; [reflexivity|constructor].
  - reflexivity.
  - simpl. auto.
  - discriminate.
  - reflexivity.
  - exact Hrun.
Defined.

(** Removing [comments], which is not selected, loses the cached node. *)
Lemma remove_absent_clears_slot_witness :
  FieldView._removeFieldFromSelections Sample.store
    {| FieldView._previousSelection := Some 1%positive |}
    {| FieldView.field := Sample.comments;
       FieldView.selections := Sample.siblings |}
  = ({| FieldView._previousSelection := None |}, Sample.siblings).
Proof.
  apply (remove_absent_clears_slot Sample.store
           {| FieldView._previousSelection := Some 1%positive |}
           {| FieldView.field := Sample.comments;
              FieldView.selections := Sample.siblings |}).
  repeat constructor.
Defined.

(* ===================================================================== *)
(** * FieldView: bubbling an argument list into the field                 *)
(* ===================================================================== *)

Section SetArguments.
Import JS GraphQL Explorer FieldView.
Context `{!Host}.

Lemma alloc_fresh (h : Store) (node : ASTNode) :
  h !! fst (alloc h node) = None
  /\ snd (alloc h node) = <[fst (alloc h node) := node]> h
  /\ h ⊆ snd (alloc h node).
Proof.
  unfold alloc. simpl.
  assert (Hfresh : h !! fresh (dom h) = None)
    by apply (not_elem_of_dom (D := gset ref)), is_fresh.
  repeat split; [exact Hfresh|]. apply insert_subseteq, Hfresh.
Qed.

(** Each occurrence of the target becomes a newly allocated copy of the
    replacement, every other element is passed on, and the store only
    grows. *)
Lemma map_replacing_spec (target : ref) (replacement : ASTNode) (xs : list ref) :
  forall h : Store,
    h ⊆ fst (map_replacing h target replacement xs)
    /\ Forall2
         (fun s o =>
            if ref_eqb s target
            then h !! o = None
                 /\ fst (map_replacing h target replacement xs) !! o
                    = Some replacement
            else o = s)
         xs (snd (map_replacing h target replacement xs)).
Proof.
  induction xs as [|s rest IH]; intros h; cbn [map_replacing].
  - split; [reflexivity|constructor].
  - destruct (ref_eqb s target) eqn:Hs.
    + destruct (alloc_fresh h replacement) as (Hnew & Hstore & Hsub).
      destruct (alloc h replacement) as [s' h1] eqn:Halloc.
      cbn [fst snd] in Hnew, Hstore, Hsub.
      specialize (IH h1).
      destruct (map_replacing h1 target replacement rest) as [h2 rest'] eqn:Hrest.
      cbn [fst snd] in *. destruct IH as [Hsub2 Hall]. split.
      * transitivity h1; assumption.
      * constructor.
        -- rewrite Hs. split; [exact Hnew|].
           apply (lookup_weaken h1); [|exact Hsub2].
           rewrite Hstore. apply lookup_insert_eq.
        -- eapply Forall2_impl; [exact Hall|]. intros x o. simpl.
           destruct (ref_eqb x target); [|auto].
           intros [Hnone Hsome]. split; [|exact Hsome].
           eapply lookup_weaken_None; eassumption.
    + specialize (IH h).
      destruct (map_replacing h target replacement rest) as [h2 rest'] eqn:Hrest.
      cbn [fst snd] in *. destruct IH as [Hsub2 Hall]. split; [exact Hsub2|].
      constructor; [rewrite Hs; reflexivity|exact Hall].
Qed.

(** C10. When the sibling list holds a Field node of the schema field,
    [_setArguments] passes on a list of the same length in which every
    sibling that is not that node is the same object as before, and the
    node is replaced by a new object with the given arguments and the
    alias, directives, name and selection set of the node; the nodes
    already in the store, the siblings among them, are unchanged. *)
Theorem setArguments_replaces_only_arguments
    (h : Store) (props : Props) (argumentNodes : list ArgumentNode) (node : ref) :
  _getSelection h props = Some node ->
  exists f h' out,
    h !! node = Some (Field f)
    /\ _setArguments h props argumentNodes = (h', Some out)
    /\ length out = length (selections props)
    /\ Forall2
         (fun s o =>
            if ref_eqb s node
            then h !! o = None
                 /\ h' !! o
                    = Some (Field {| f_alias := f_alias f;
                                     f_name := f_name f;
                                     f_arguments := Some argumentNodes;
                                     f_directives := f_directives f;
                                     f_selectionSet := f_selectionSet f |})
            else o = s)
         (selections props) out
    /\ (forall r v, h !! r = Some v -> h' !! r = Some v).
Proof.
  intros Hget.
  destruct (_getSelection_found _ _ _ Hget) as (pre & post & f & _ & _ & _ & Hf & _).
  unfold _setArguments. rewrite Hget, Hf.
  match goal with
  | |- context [map_replacing h node ?repl ?xs] =>
      pose proof (map_replacing_spec node repl xs h) as [Hsub Hall];
        destruct (map_replacing h node repl xs) as [h' out]
  end.
  simpl in *. exists f, h', out.
  split; [reflexivity|]. split; [reflexivity|]. split; [|split].
  - symmetry. eapply Forall2_length, Hall.
  - exact Hall.
  - intros r v Hr. eapply lookup_weaken; eassumption.
Qed.

End SetArguments.

(** Setting the arguments of [viewer]: its node is replaced by a new
    object at reference 5 with the alias and the nested selection it
    had, and the two [posts] nodes are passed on. *)
Lemma setArguments_replaces_only_arguments_witness :
  exists h',
    FieldView._setArguments Sample.store
      {| FieldView.field := Sample.viewer;
         FieldView.selections := Sample.siblings |} []
    = (h', Some [5; 2; 3]%positive)
    /\ h' !! 5%positive
       = Some (GraphQL.Field
                 {| GraphQL.f_alias := Some {| GraphQL.value := "me" |};
                    GraphQL.f_name := {| GraphQL.value := "viewer" |};
                    GraphQL.f_arguments := Some [];
                    GraphQL.f_directives := Some [];
                    GraphQL.f_selectionSet :=
                      Some {| GraphQL.selections := [4%positive] |} |})
    /\ h' !! 3%positive = Sample.store !! 3%positive.
Proof.
  destruct (setArguments_replaces_only_arguments Sample.store
              {| FieldView.field := Sample.viewer;
                 FieldView.selections := Sample.siblings |}
              [] 1%positive eq_refl)
    as (f & h' & out & Hf & Hrun & _ & _ & Hframe).
  exists h'. split; [|split].
  - rewrite Hrun. vm_compute in Hrun. injection Hrun as <- <-. reflexivity.
  - vm_compute in Hrun. injection Hrun as <- _. reflexivity.
  - apply Hframe. reflexivity.
Defined.

(* ===================================================================== *)
(** * The parse memoizer                                                  *)
(* ===================================================================== *)

Section ParseMemo.
Import JS GraphQL Explorer.

Lemma trimStart_nil (t : Text) : trimStart t = [] <-> blank t.
Proof.
  unfold blank. induction t as [|c t IH]; simpl.
  - split; [constructor|reflexivity].
  - destruct (isWhiteSpace c) eqn:Hc.
    + rewrite IH. split; [constructor; assumption|].
      intros Hall. inversion Hall; assumption.
    + split; [discriminate|]. intros Hall. inversion Hall; congruence.
Qed.

Lemma trimStart_keeps_last (t : Text) (c : N) :
  isWhiteSpace c = false -> trimStart (t ++ [c]) <> [].
Proof.
  intros Hc Hnil. apply trimStart_nil in Hnil.
  apply Forall_app in Hnil as [_ Hlast]. inversion Hlast; congruence.
Qed.

Lemma trimStart_head (t : Text) :
  match trimStart t with
  | [] => True
  | c :: _ => isWhiteSpace c = false
  end.
Proof.
  induction t as [|c t IH]; simpl; [exact I|].
  destruct (isWhiteSpace c) eqn:Hc; [exact IH|exact Hc].
Qed.

(** [!text.trim()] holds exactly of the blank texts. *)
Lemma trim_blank (t : Text) : truthy (trim t) = false <-> blank t.
Proof.
  unfold trim. rewrite <- trimStart_nil.
  pose proof (trimStart_head t) as Hhead.
  destruct (trimStart t) as [|c rest]; simpl; [tauto|].
  split; [|discriminate]. intros Hfalsy. exfalso.
  destruct (trimStart (rev rest ++ [c])) as [|c' rest'] eqn:Hend.
  - exact (trimStart_keeps_last (rev rest) c Hhead Hend).
  - simpl in Hfalsy. destruct (rev rest' ++ [c']) eqn:Hrev; [|discriminate].
    destruct (rev rest'); discriminate Hrev.
Qed.

Lemma Text_eqb_eq (a b : Text) : Text_eqb a b = true <-> a = b.
Proof. unfold Text_eqb. apply bool_decide_eq_true. Qed.

(** C4. The memoizer returns a document and the next state of its
    variable for every text and every parser, and calls the parser at
    most once.  With the variable as the memoizer itself leaves it: a
    blank text gives the empty document; a text the parser rejects gives
    the memoized document when there is one and the empty document
    otherwise, the variable unchanged in both cases; a text the parser
    accepts gives its document and leaves the variable holding that text
    and document; and for the memoized text the memoized document is
    returned with no call of the parser. *)
Theorem memoizeParseQuery_keeps_last_good
    (parse : Text -> DocumentNode + string)
    (parseQueryMemoize : option (Text * DocumentNode)) (query : Text) :
  memoized parse parseQueryMemoize ->
  let result := run parse (memoizeParseQuery parseQueryMemoize query) in
  memoized parse (snd result)
  /\ length (parsed parse (memoizeParseQuery parseQueryMemoize query)) <= 1
  /\ (blank query ->
      result = (DEFAULT_DOCUMENT, parseQueryMemoize)
      /\ definitions (fst result) = [])
  /\ (forall e, ~ blank query -> parse query = inr e ->
        result = (match parseQueryMemoize with
                  | Some (_, d) => d
                  | None => DEFAULT_DOCUMENT
                  end, parseQueryMemoize))
  /\ (forall d, ~ blank query -> parse query = inl d ->
        result = (d, Some (query, d)))
  /\ (forall d, parseQueryMemoize = Some (query, d) ->
        memoizeParseQuery parseQueryMemoize query = Return (d, parseQueryMemoize)
        /\ parsed parse (memoizeParseQuery parseQueryMemoize query) = []).
Proof.
  intros Hmemo result. subst result.
  assert (Hmiss : forall memo,
            memoized parse memo ->
            let c :=
              then_ (parseQuery query) (fun result =>
                match result with
                | Null => Return (DEFAULT_DOCUMENT, memo)
                | Error _ =>
                    match memo with
                    | Some (_, d) => Return (d, memo)
                    | None => Return (DEFAULT_DOCUMENT, memo)
                    end
                | Document result => Return (result, Some (query, result))
                end) in
            memoized parse (snd (run parse c))
            /\ length (parsed parse c) <= 1
            /\ (blank query -> run parse c = (DEFAULT_DOCUMENT, memo))
            /\ (forall e, ~ blank query -> parse query = inr e ->
                  run parse c = (match memo with
                                 | Some (_, d) => d
                                 | None => DEFAULT_DOCUMENT
                                 end, memo))
            /\ (forall d, ~ blank query -> parse query = inl d ->
                  run parse c = (d, Some (query, d)))).
  { intros memo Hm c. subst c. unfold parseQuery.
    destruct (truthy (trim query)) eqn:Htrim; simpl.
    - assert (Hnb : ~ blank query)
        by (intros Hb; apply trim_blank in Hb; congruence).
      destruct (parse query) as [d|e] eqn:Hparse; simpl.
      + repeat split; try (intros; tauto || congruence); auto.
      + repeat split; try (intros; tauto || congruence); auto;
          destruct memo as [[t d]|]; simpl; auto; intros; congruence.
    - apply trim_blank in Htrim.
      repeat split; auto; intros; tauto. }
  unfold memoizeParseQuery.
  destruct parseQueryMemoize as [[text d0]|]; cbv zeta.
  - destruct (Text_eqb text query) eqn:Heq.
    + apply Text_eqb_eq in Heq. subst text. destruct Hmemo as [Hnb Hparse].
      assert (Hnotblank : ~ blank query)
        by (intros Hb; apply trim_blank in Hb; congruence).
      simpl. repeat split; auto; try (intros; tauto || congruence).
    + destruct (Hmiss _ Hmemo) as (H1 & H2 & H3 & H4 & H5).
      split; [exact H1|]. split; [exact H2|]. split.
      { intros Hb. rewrite (H3 Hb). split; reflexivity. }
      split; [exact H4|]. split; [exact H5|].
      intros d [= -> ->]. rewrite (proj2 (Text_eqb_eq query query) eq_refl) in Heq.
      discriminate Heq.
  - destruct (Hmiss None I) as (H1 & H2 & H3 & H4 & H5).
    split; [exact H1|]. split; [exact H2|]. split.
    { intros Hb. rewrite (H3 Hb). split; reflexivity. }
    split; [exact H4|]. split; [exact H5|]. intros d Hd. discriminate Hd.
Qed.

End ParseMemo.

(** The memoized document survives a text the parser rejects. *)
Lemma memoizeParseQuery_keeps_last_good_witness :
  Explorer.run Sample.parse
    (Explorer.memoizeParseQuery (Some (Sample.text_a, Sample.document_a)) [123%N])
  = (Sample.document_a, Some (Sample.text_a, Sample.document_a)).
Proof.
  pose proof (memoizeParseQuery_keeps_last_good Sample.parse
                (Some (Sample.text_a, Sample.document_a)) [123%N]
                (conj eq_refl eq_refl)) as Hmemo.
  cbv zeta in Hmemo. destruct Hmemo as (_ & _ & _ & Hrejected & _).
  apply (Hrejected "Syntax Error").
  - intros Hblank. inversion Hblank as [|c rest Hc _]. discriminate Hc.
  - reflexivity.
Defined.

(* ===================================================================== *)
(** * RootView: committing the selections of an operation                 *)
(* ===================================================================== *)

Section Commit.
Import JS GraphQL RootView.

Lemma find_none_forall {A} (p : A -> bool) (xs : list A) :
  List.find p xs = None -> forall x, In x xs -> p x = false.
Proof. intros Hfind x Hin. exact (find_none p xs Hfind x Hin). Qed.

Lemma map_replace_absent (x n : ref) (xs : list ref) :
  ~ In x xs -> map (fun op => if ref_eqb op x then n else op) xs = xs.
Proof.
  induction xs as [|y xs IH]; simpl; [reflexivity|]. intros Hnot.
  destruct (ref_eqb y x) eqn:Hy.
  - apply Pos.eqb_eq in Hy. tauto.
  - rewrite IH by tauto. reflexivity.
Qed.

Lemma existsb_absent (x : ref) (xs : list ref) :
  ~ In x xs -> existsb (fun op => ref_eqb op x) xs = false.
Proof.
  induction xs as [|y xs IH]; simpl; [reflexivity|]. intros Hnot.
  destruct (ref_eqb y x) eqn:Hy; simpl.
  - apply Pos.eqb_eq in Hy. tauto.
  - apply IH. tauto.
Qed.

Lemma existsb_present (x : ref) (xs : list ref) :
  In x xs -> existsb (fun op => ref_eqb op x) xs = true.
Proof.
  intros Hin. apply existsb_exists. exists x. split; [exact Hin|].
  apply Pos.eqb_eq. reflexivity.
Qed.

Lemma matches_operation h props d :
  matches h props d = true ->
  exists o, h !! d = Some (OperationDefinition o) /\ o_operation o = operation props.
Proof.
  unfold matches. destruct (h !! d) as [[| | |o| |]|]; try discriminate.
  intros Hop. exists o. split; [reflexivity|].
  destruct (o_operation o), (operation props); simpl in Hop;
    reflexivity || discriminate Hop.
Qed.

Lemma operation_matches h props d o :
  h !! d = Some (OperationDefinition o) -> o_operation o = operation props ->
  matches h props d = true.
Proof.
  intros Hd Hop. unfold matches. rewrite Hd, Hop.
  destruct (operation props); reflexivity.
Qed.

Lemma fresh_unallocated (h : Store) : h !! fresh (dom h) = None.
Proof. apply (not_elem_of_dom (D := gset ref)), is_fresh. Qed.

(** The located definition, when the document has one of the kind. *)
Lemma _getOperationDef_found h props d :
  List.find (matches h props) (definitions (parsedQuery props)) = Some d ->
  _getOperationDef h props (parsedQuery props) = Normal (h, d).
Proof.
  intros Hfind. unfold _getOperationDef. rewrite Hfind.
  destruct (matches_operation h props d) as (o & Hd & _).
  { eapply find_some, Hfind. }
  rewrite Hd. reflexivity.
Qed.

Section Amended.
Variables (h : Store) (this : Instance) (props : Props).
Hypothesis document_parsed : wellFormed h (parsedQuery props).
Hypothesis slot_remembers : remembers h props this.

Lemma commit_empty d :
  List.find (matches h props) (definitions (parsedQuery props)) = Some d ->
  _modifySelections h this props []
  = Normal (h, {| _previousOperationDef := Some d |},
            {| definitions :=
                 List.filter (other_than d) (definitions (parsedQuery props)) |}).
Proof.
  intros Hfind. unfold _modifySelections.
  rewrite (_getOperationDef_found h props d Hfind). simpl.
  destruct (find_some _ _ Hfind) as [Hin Hmatch].
  destruct (matches_operation h props d Hmatch) as (o & Hd & Hop).
  unfold operationNode. rewrite Hd. simpl.
  destruct (document_parsed d Hin) as (node & Hnode & Hsel).
  rewrite Hd in Hnode. injection Hnode as <-.
  specialize (Hsel o eq_refl).
  destruct (selections (o_selectionSet o)); [congruence|]. reflexivity.
Qed.

Lemma commit_replaces d o s rest :
  List.find (matches h props) (definitions (parsedQuery props)) = Some d ->
  h !! d = Some (OperationDefinition o) ->
  _modifySelections h this props (s :: rest)
  = Normal (<[fresh (dom h) := OperationDefinition (withSelections o (s :: rest))]> h,
            this,
            {| definitions :=
                 map (fun op => if ref_eqb op d then fresh (dom h) else op)
                   (definitions (parsedQuery props)) |}).
Proof.
  intros Hfind Hd. unfold _modifySelections.
  rewrite (_getOperationDef_found h props d Hfind). simpl.
  destruct (find_some _ _ Hfind) as [Hin Hmatch].
  unfold operationNode. rewrite Hd. simpl.
  destruct (document_parsed d Hin) as (node & Hnode & Hsel).
  rewrite Hd in Hnode. injection Hnode as <-.
  specialize (Hsel o eq_refl).
  destruct (selections (o_selectionSet o)) eqn:Hsels; [congruence|].
  rewrite Hd. simpl. rewrite (existsb_present d _ Hin). reflexivity.
Qed.

Lemma commit_prepends s rest :
  List.find (matches h props) (definitions (parsedQuery props)) = None ->
  exists newOperationDef h',
    _modifySelections h this props (s :: rest)
    = Normal (h', this,
              {| definitions := newOperationDef :: definitions (parsedQuery props) |})
    /\ h !! newOperationDef = None
    /\ h' !! newOperationDef
       = Some (OperationDefinition (withSelections (editBase h props this) (s :: rest)))
    /\ (forall r v, h !! r = Some v -> h' !! r = Some v).
Proof.
  intros Hfind. unfold _modifySelections, _getOperationDef. rewrite Hfind.
  pose proof (fresh_unallocated h) as Hfresh.
  set (located := fresh (dom h)) in *.
  set (h1 := <[located := OperationDefinition (synthesized props)]> h).
  assert (Hsub1 : h ⊆ h1) by (apply insert_subseteq, Hfresh).
  assert (Hlocated : h1 !! located = Some (OperationDefinition (synthesized props)))
    by apply lookup_insert_eq.
  unfold alloc. fold located. fold h1. cbv zeta. rewrite Hlocated. simpl.
  unfold operationNode at 1. rewrite Hlocated. simpl.
  pose proof (fresh_unallocated h1) as Hfresh1.
  set (newOperationDef := fresh (dom h1)) in *.
  assert (Hnew : h !! newOperationDef = None)
    by (eapply lookup_weaken_None; eassumption).
  assert (Hallocated : forall d, In d (definitions (parsedQuery props)) ->
                                 d <> located).
  { intros d Hin ->. destruct (document_parsed located Hin) as (node & Hnode & _).
    congruence. }
  unfold remembers in slot_remembers. unfold editBase.
  destruct (_previousOperationDef this) as [previous|] eqn:Hprev.
  - destruct slot_remembers as (o & Ho & Hop).
    assert (Ho1 : h1 !! previous = Some (OperationDefinition o))
      by (eapply lookup_weaken; eassumption).
    unfold operationNode. rewrite Ho1, Ho. simpl.
    assert (Habsent : ~ In previous (definitions (parsedQuery props))).
    { intros Hin.
      pose proof (find_none_forall _ _ Hfind previous Hin) as Hno.
      rewrite (operation_matches h props previous o Ho Hop) in Hno.
      discriminate Hno. }
    rewrite (existsb_absent _ _ Habsent), (map_replace_absent _ _ _ Habsent).
    exists newOperationDef, (<[newOperationDef :=
                                 OperationDefinition (withSelections o (s :: rest))]> h1).
    split; [reflexivity|]. split; [exact Hnew|]. split; [apply lookup_insert_eq|].
    intros r v Hr. apply (lookup_weaken h1); [eapply lookup_weaken; eassumption|].
    apply insert_subseteq, Hfresh1.
  - unfold operationNode. rewrite Hlocated. simpl.
    assert (Habsent : ~ In located (definitions (parsedQuery props)))
      by (intros Hin; exact (Hallocated located Hin eq_refl)).
    rewrite (existsb_absent _ _ Habsent), (map_replace_absent _ _ _ Habsent).
    exists newOperationDef,
      (<[newOperationDef :=
           OperationDefinition (withSelections (synthesized props) (s :: rest))]> h1).
    split; [reflexivity|]. split; [exact Hnew|]. split; [apply lookup_insert_eq|].
    intros r v Hr. apply (lookup_weaken h1); [eapply lookup_weaken; eassumption|].
    apply insert_subseteq, Hfresh1.
Qed.

Lemma filter_absent (x : ref) (xs : list ref) :
  ~ In x xs -> List.filter (fun d => negb (ref_eqb d x)) xs = xs.
Proof.
  induction xs as [|y xs IH]; simpl; [reflexivity|]. intros Hnot.
  destruct (ref_eqb y x) eqn:Hy; simpl.
  - apply Pos.eqb_eq in Hy. tauto.
  - rewrite IH by tauto. reflexivity.
Qed.

(** Committing an empty list when the document has no definition of the
    kind leaves the definitions as they are. *)
Lemma commit_nothing :
  List.find (matches h props) (definitions (parsedQuery props)) = None ->
  exists kept h' o,
    _modifySelections h this props []
    = Normal (h', {| _previousOperationDef := Some kept |},
              {| definitions := definitions (parsedQuery props) |})
    /\ h' !! kept = Some (OperationDefinition o)
    /\ o_operation o = operation props
    /\ (forall r v, h !! r = Some v -> h' !! r = Some v).
Proof.
  intros Hfind. unfold _modifySelections, _getOperationDef. rewrite Hfind.
  pose proof (fresh_unallocated h) as Hfresh.
  set (located := fresh (dom h)) in *.
  set (h1 := <[located := OperationDefinition (synthesized props)]> h).
  assert (Hsub1 : h ⊆ h1) by (apply insert_subseteq, Hfresh).
  assert (Hlocated : h1 !! located = Some (OperationDefinition (synthesized props)))
    by apply lookup_insert_eq.
  unfold alloc. fold located. fold h1. cbv zeta. rewrite Hlocated. simpl.
  unfold operationNode. rewrite Hlocated. simpl.
  assert (Hframe : forall r v, h !! r = Some v -> h1 !! r = Some v)
    by (intros r v Hr; eapply lookup_weaken; eassumption).
  assert (Hallocated : ~ In located (definitions (parsedQuery props))).
  { intros Hin. destruct (document_parsed located Hin) as (node & Hnode & _).
    congruence. }
  unfold remembers in slot_remembers.
  destruct (_previousOperationDef this) as [previous|] eqn:Hprev.
  - destruct slot_remembers as (o & Ho & Hop).
    assert (Habsent : ~ In previous (definitions (parsedQuery props))).
    { intros Hin.
      pose proof (find_none_forall _ _ Hfind previous Hin) as Hno.
      rewrite (operation_matches h props previous o Ho Hop) in Hno.
      discriminate Hno. }
    exists previous, h1, o. rewrite (filter_absent _ _ Habsent).
    repeat split; auto.
  - exists located, h1, (synthesized props). rewrite (filter_absent _ _ Hallocated).
    repeat split; auto.
Qed.

(** What the view remembers stays an operation definition of its kind. *)
Lemma modifySelections_keeps_remembering selections h' this' doc' :
  _modifySelections h this props selections = Normal (h', this', doc') ->
  remembers h' props this'.
Proof.
  destruct (List.find (matches h props) (definitions (parsedQuery props)))
    as [d|] eqn:Hfind; destruct selections as [|s rest]; intros Hrun.
  - rewrite (commit_empty d Hfind) in Hrun. injection Hrun as <- <- _.
    destruct (matches_operation h props d) as (o & Hd & Hop);
      [eapply find_some, Hfind|].
    exists o. split; assumption.
  - destruct (matches_operation h props d) as (o & Hd & Hop);
      [eapply find_some, Hfind|].
    rewrite (commit_replaces d o s rest Hfind Hd) in Hrun.
    injection Hrun as <- <- _. unfold remembers in *.
    destruct (_previousOperationDef this) as [previous|]; [|exact I].
    destruct slot_remembers as (o' & Ho' & Hop'). exists o'. split; [|exact Hop'].
    eapply lookup_weaken; [exact Ho'|].
    apply insert_subseteq, fresh_unallocated.
  - destruct (commit_nothing Hfind) as (kept & h1 & o & Hrun' & Hkept & Hop & _).
    rewrite Hrun' in Hrun. injection Hrun as <- <- _.
    exists o. split; assumption.
  - destruct (commit_prepends s rest Hfind) as (n & h1 & Hrun' & _ & _ & Hframe).
    rewrite Hrun' in Hrun. injection Hrun as <- <- _. unfold remembers in *.
    destruct (_previousOperationDef this) as [previous|]; [|exact I].
    destruct slot_remembers as (o' & Ho' & Hop'). exists o'. split; [|exact Hop'].
    apply Hframe, Ho'.
Qed.

End Amended.
End Commit.

Section CommitClaim.
Import JS GraphQL RootView.

(** C3, as the code has it.  For a document as the parser produces it
    and a view that remembers at most an operation definition of its own
    kind: committing an empty selection list takes the located
    definition out of the definition list, the other definitions staying
    in order, and remembers it; committing a non-empty list when the
    document has no definition of the kind puts a new definition at the
    front, built from the remembered definition when there is one (its
    name, variable definitions and directives come back) and from the
    synthesized one otherwise, with the committed selections; and when
    the document has a definition of the kind, a new definition with its
    name, variables and directives and the committed selections takes
    its place in the list. *)
Theorem modifySelections_commits
    (h : Store) (this : Instance) (props : Props) :
  wellFormed h (parsedQuery props) ->
  remembers h props this ->
  (forall d,
      List.find (matches h props) (definitions (parsedQuery props)) = Some d ->
      _modifySelections h this props []
      = Normal (h, {| _previousOperationDef := Some d |},
                {| definitions :=
                     List.filter (other_than d) (definitions (parsedQuery props)) |})
      /\ ~ In d (List.filter (other_than d) (definitions (parsedQuery props))))
  /\ (forall s rest,
         List.find (matches h props) (definitions (parsedQuery props)) = None ->
         exists newOperationDef h',
           _modifySelections h this props (s :: rest)
           = Normal (h', this,
                     {| definitions :=
                          newOperationDef :: definitions (parsedQuery props) |})
           /\ h !! newOperationDef = None
           /\ h' !! newOperationDef
              = Some (OperationDefinition
                        (withSelections (editBase h props this) (s :: rest)))
           /\ (forall r v, h !! r = Some v -> h' !! r = Some v))
  /\ (forall d o s rest,
         List.find (matches h props) (definitions (parsedQuery props)) = Some d ->
         h !! d = Some (OperationDefinition o) ->
         h !! fresh (dom h) = None
         /\ _modifySelections h this props (s :: rest)
            = Normal (<[fresh (dom h) :=
                          OperationDefinition (withSelections o (s :: rest))]> h,
                      this,
                      {| definitions :=
                           map (fun op => if ref_eqb op d then fresh (dom h) else op)
                             (definitions (parsedQuery props)) |})).
Proof.
  intros Hdoc Hslot. split; [|split].
  - intros d Hfind. split; [apply commit_empty; assumption|].
    intros Hin. apply filter_In in Hin. destruct Hin as [_ Hne].
    unfold other_than, ref_eqb in Hne. rewrite Pos.eqb_refl in Hne.
    discriminate Hne.
  - intros s rest Hfind. apply commit_prepends; assumption.
  - intros d o s rest Hfind Hd. split; [apply fresh_unallocated|].
    apply commit_replaces; assumption.
Qed.

End CommitClaim.

Lemma sample_document_parsed :
  RootView.wellFormed Sample.documents {| GraphQL.definitions := [8%positive] |}.
Proof.
  intros d [<-|[]]. eexists. split; [reflexivity|].
  intros o [= <-]. discriminate.
Qed.

Lemma sample_slot_remembers :
  RootView.remembers Sample.documents
    {| RootView.operation := GraphQL.query;
       RootView.parsedQuery := {| GraphQL.definitions := [8%positive] |} |}
    {| RootView._previousOperationDef := Some 7%positive |}.
Proof. exists Sample.dashboard. split; reflexivity. Qed.

(** Adding [posts] to the query of a document that holds a subscription
    only, after [query Dashboard] was removed: the new definition stands
    before the subscription. *)
Lemma modifySelections_commits_witness :
  exists newOperationDef h',
    RootView._modifySelections Sample.documents
      {| RootView._previousOperationDef := Some 7%positive |}
      {| RootView.operation := GraphQL.query;
         RootView.parsedQuery := {| GraphQL.definitions := [8%positive] |} |}
      [2%positive]
    = JS.Normal (h', {| RootView._previousOperationDef := Some 7%positive |},
                 {| GraphQL.definitions := [newOperationDef; 8%positive] |})
    /\ Sample.documents !! newOperationDef = None
    /\ h' !! newOperationDef
       = Some (GraphQL.OperationDefinition
                 (RootView.withSelections Sample.dashboard [2%positive])).
Proof.
  destruct (modifySelections_commits Sample.documents
              {| RootView._previousOperationDef := Some 7%positive |}
              {| RootView.operation := GraphQL.query;
                 RootView.parsedQuery := {| GraphQL.definitions := [8%positive] |} |}
              sample_document_parsed sample_slot_remembers)
    as (_ & Hprepend & _).
  destruct (Hprepend 2%positive [] eq_refl) as (n & h' & Hrun & Hnew & Hnode & _).
  exists n, h'. split; [exact Hrun|]. split; [exact Hnew|exact Hnode].
Defined.

(** The definition that reaches the front is not the synthesized one
    when a definition is remembered: it is named [Dashboard] and has the
    variable definitions of the removed operation, where the synthesized
    definition has neither. *)
Lemma modifySelections_inserts_remembered :
  exists newOperationDef h',
    RootView._modifySelections Sample.documents
      {| RootView._previousOperationDef := Some 7%positive |}
      {| RootView.operation := GraphQL.query;
         RootView.parsedQuery := {| GraphQL.definitions := [8%positive] |} |}
      [2%positive]
    = JS.Normal (h', {| RootView._previousOperationDef := Some 7%positive |},
                 {| GraphQL.definitions := [newOperationDef; 8%positive] |})
    /\ h' !! newOperationDef
       = Some (GraphQL.OperationDefinition
                 {| GraphQL.o_operation := GraphQL.query;
                    GraphQL.o_name := Some {| GraphQL.value := "Dashboard" |};
                    GraphQL.o_variableDefinitions :=
                      Some [{| GraphQL.v_variable := {| GraphQL.value := "n" |};
                               GraphQL.v_type := "Int" |}];
                    GraphQL.o_directives := Some [];
                    GraphQL.o_selectionSet :=
                      {| GraphQL.selections := [2%positive] |} |})
    /\ RootView.withSelections
         (RootView.synthesized
            {| RootView.operation := GraphQL.query;
               RootView.parsedQuery := {| GraphQL.definitions := [8%positive] |} |})
         [2%positive]
       = {| GraphQL.o_operation := GraphQL.query;
            GraphQL.o_name := None;
            GraphQL.o_variableDefinitions := None;
            GraphQL.o_directives := None;
            GraphQL.o_selectionSet := {| GraphQL.selections := [2%positive] |} |}
    /\ h' !! newOperationDef
       <> Some (GraphQL.OperationDefinition
                  (RootView.withSelections
                     (RootView.synthesized
                        {| RootView.operation := GraphQL.query;
                           RootView.parsedQuery :=
                             {| GraphQL.definitions := [8%positive] |} |})
                     [2%positive])).
Proof.
  eexists. eexists. split; [vm_compute; reflexivity|].
  split; [vm_compute; reflexivity|]. split; [reflexivity|].
  vm_compute. discriminate.
Qed.

(* ===================================================================== *)
(** * Further properties of the functions of Explorer.js                  *)
(* ===================================================================== *)

Section Unwrapping.
Import JS GraphQL Explorer.
Context `{!Host}.

(** X1. Unwrapping an input or output type strips every List and
    NonNull: the result is not a wrapping type and has a name, unwrapping
    it again changes nothing, a type that is not wrapped is returned as
    it is, and the two unwrapping functions agree. *)
Theorem unwrapInputType_reaches_named_type (t : GraphQLType) :
  isWrappingType (unwrapInputType t) = false
  /\ (exists n, type_name (unwrapInputType t) = Some n)
  /\ unwrapInputType (unwrapInputType t) = unwrapInputType t
  /\ unwrapOutputType t = unwrapInputType t
  /\ (isWrappingType t = false -> unwrapInputType t = t)
  /\ unwrapInputType (GraphQLList (GraphQLNonNull t)) = unwrapInputType t.
Proof.
  split; [|split; [|split; [|split; [|split]]]].
  - induction t; simpl; auto.
  - induction t; simpl; eauto.
  - induction t; simpl; auto.
  - induction t; simpl; auto.
  - destruct t; simpl; intros Hw; reflexivity || discriminate Hw.
  - reflexivity.
Qed.

End Unwrapping.

Section DefaultSelectionBounds.
Import JS GraphQL Explorer Policy.
Context `{!Host}.

Lemma has_key {A} (fields : list (string * A)) (k : string) :
  In k (Object_keys fields) -> has fields k = true.
Proof.
  unfold has, Object_keys.
  induction fields as [|[k' v] fields IH]; simpl; [tauto|].
  destruct (String.eqb_spec k' k) as [->|Hne]; [reflexivity|].
  intros [Heq|Hin]; [congruence|]. apply IH, Hin.
Qed.

Lemma firstn_In {A} (n : nat) (l : list A) (x : A) : In x (firstn n l) -> In x l.
Proof.
  revert n. induction l as [|y l IH]; intros [|n]; simpl; try tauto.
  intros [->|Hin]; [left; reflexivity|right; eapply IH, Hin].
Qed.

Lemma firstn_NoDup {A} (n : nat) (l : list A) : NoDup l -> NoDup (firstn n l).
Proof.
  revert n. induction l as [|y l IH]; intros [|n] Hnd; simpl; try constructor.
  - inversion Hnd as [|? ? Hy Hl]; subst. intros Hin. apply Hy.
    apply list_elem_of_In. apply list_elem_of_In in Hin. eapply firstn_In, Hin.
  - inversion Hnd; subst. apply IH. assumption.
Qed.

Lemma filter_NoDup {A} (p : A -> bool) (l : list A) :
  NoDup l -> NoDup (List.filter p l).
Proof.
  induction 1 as [|y l Hy Hl IH]; simpl; [constructor|].
  destruct (p y); [|exact IH]. constructor; [|exact IH].
  intros Hin. apply Hy. apply list_elem_of_In. apply list_elem_of_In in Hin.
  apply filter_In in Hin. tauto.
Qed.

(** X2. The built-in policy returns at most two names, each the name of
    a field of the type, and returns no name twice when the field map
    lists none twice; what it returns is empty exactly when the type has
    none of [id], [edges], [node], [nodes] and no field whose type, as
    declared, is a scalar or an enum. *)
Theorem defaultGetDefaultFieldNames_within_fields (fields : GraphQLFieldMap) :
  length (defaultGetDefaultFieldNames fields) <= 2
  /\ (forall n, In n (defaultGetDefaultFieldNames fields) -> has fields n = true)
  /\ (NoDup (Object_keys fields) -> NoDup (defaultGetDefaultFieldNames fields))
  /\ (defaultGetDefaultFieldNames fields = [] <->
      has fields "id" = false /\ has fields "edges" = false
      /\ has fields "node" = false /\ has fields "nodes" = false
      /\ Forall (fun k => leafAsGiven fields k = false) (Object_keys fields)).
Proof.
  rewrite defaultGetDefaultFieldNames_rules.
  destruct (has fields "id") eqn:Hid.
  { destruct (has fields "email") eqn:Hemail; [|destruct (has fields "name") eqn:Hname];
      (split; [simpl; lia|]);
      (split; [intros n; simpl; intuition (subst; assumption)|]);
      (split; [intros _; repeat constructor; simpl;
               rewrite ?list_elem_of_In; simpl; intuition discriminate|]);
      split; intros; try discriminate; intuition discriminate. }
  destruct (has fields "edges") eqn:Hedges.
  { split; [simpl; lia|]. split; [intros n [<-|[]]; assumption|].
    split; [intros _; repeat constructor; rewrite list_elem_of_In; simpl; tauto|].
    split; intros; try discriminate; intuition discriminate. }
  destruct (has fields "node") eqn:Hnode.
  { split; [simpl; lia|]. split; [intros n [<-|[]]; assumption|].
    split; [intros _; repeat constructor; rewrite list_elem_of_In; simpl; tauto|].
    split; intros; try discriminate; intuition discriminate. }
  destruct (has fields "nodes") eqn:Hnodes.
  { split; [simpl; lia|]. split; [intros n [<-|[]]; assumption|].
    split; [intros _; repeat constructor; rewrite list_elem_of_In; simpl; tauto|].
    split; intros; try discriminate; intuition discriminate. }
  split; [apply firstn_le_length|].
  split; [intros n Hin; apply has_key; apply firstn_In, filter_In in Hin; tauto|].
  split; [intros Hnd; apply firstn_NoDup, filter_NoDup, Hnd|].
  split.
  - intros Hnil. repeat split; try reflexivity.
    apply List.Forall_forall. intros k Hk.
    destruct (leafAsGiven fields k) eqn:Hleaf; [|reflexivity].
    assert (Hin : In k (List.filter (leafAsGiven fields) (Object_keys fields)))
      by (apply filter_In; split; assumption).
    destruct (List.filter (leafAsGiven fields) (Object_keys fields)); [destruct Hin|].
    discriminate Hnil.
  - intros (_ & _ & _ & _ & Hall).
    assert (Hnone : List.filter (leafAsGiven fields) (Object_keys fields) = []).
    { clear -Hall. induction Hall as [|k ks Hk _ IH]; simpl; [reflexivity|].
      rewrite Hk. exact IH. }
    rewrite Hnone. reflexivity.
Qed.

End DefaultSelectionBounds.

Section SelfRequiring.
Import JS GraphQL Explorer Seeds FieldView.
Context `{!Host}.

Lemma for_of_normal_steps {A S} (body : S -> A -> completion S) (xs : list A) :
  forall acc r, for_of body xs acc = Normal r ->
  forall x, In x xs -> exists acc' r', body acc' x = Normal r'.
Proof.
  induction xs as [|y xs IH]; intros acc r Hrun x Hin; [destruct Hin|].
  simpl in Hrun. destruct (body acc y) as [acc1| |] eqn:Hstep; try discriminate.
  destruct Hin as [->|Hin]; [eauto|]. eapply IH; eassumption.
Qed.

Lemma requiredInputObjects_field (fields : list GraphQLInputField) (m : string) :
  In m (requiredInputObjects fields) ->
  exists f, In f fields /\ isRequiredInputField f = true
            /\ unwrapInputType (arg_type f) = GraphQLInputObjectType m.
Proof.
  unfold requiredInputObjects. intros Hin. apply in_flat_map in Hin.
  setoid_rewrite isRequiredInputField_required.
  destruct Hin as (f & Hf & Hm). exists f. split; [exact Hf|].
  destruct (required f); [|destruct Hm]. split; [reflexivity|].
  destruct (unwrapInputType (arg_type f)); try (destruct Hm; fail).
  destruct Hm as [->|[]]. reflexivity.
Qed.

(** X3. When every input object of a set requires an input object of the
    set (an input object that requires itself, directly or through a
    list or other input objects), [defaultInputObjectFields] returns for
    no recursion budget on the fields of any of them, and neither do
    [defaultArgs] and [_addFieldToSelections], with an empty undo slot,
    for a field with a required argument of such a type: the call of the
    source does not come back with a node. *)
Theorem defaultInputObjectFields_cycle_never_returns
    (schema : GraphQLSchema) (cyclic : string -> Prop) :
  (forall n, cyclic n ->
     exists m, cyclic m
       /\ In m (requiredInputObjects (Object_values (inputFields schema n)))) ->
  (forall n fuel nodes,
      cyclic n ->
      defaultInputObjectFields fuel schema (Object_values (inputFields schema n))
      <> Normal nodes)
  /\ (forall field n fuel args,
         cyclic n -> In n (requiredInputObjects (field_args field)) ->
         defaultArgs fuel schema field <> Normal args)
  /\ (forall field n fuel h siblings out,
         cyclic n -> In n (requiredInputObjects (field_args field)) ->
         _addFieldToSelections fuel schema h {| _previousSelection := None |}
           {| FieldView.field := field; selections := siblings |}
         <> Normal out).
Proof.
  intros Hcycle.
  assert (Hfields : forall fuel n nodes,
             cyclic n ->
             defaultInputObjectFields fuel schema (Object_values (inputFields schema n))
             <> Normal nodes).
  { induction fuel as [|fuel IH]; intros n nodes Hn Hrun; [discriminate Hrun|].
    destruct (Hcycle n Hn) as (m & Hm & Hreq).
    destruct (requiredInputObjects_field _ _ Hreq) as (f & Hf & Hrequired & Hty).
    simpl in Hrun.
    destruct (for_of_normal_steps _ _ _ _ Hrun f Hf) as (acc & r & Hstep).
    rewrite Hrequired, Hty in Hstep. simpl in Hstep.
    destruct (defaultInputObjectFields fuel schema (Object_values (inputFields schema m)))
      as [sub| |] eqn:Hsub; try discriminate Hstep.
    exact (IH m sub Hm Hsub). }
  assert (Hargs : forall field n fuel args,
             cyclic n -> In n (requiredInputObjects (field_args field)) ->
             defaultArgs fuel schema field <> Normal args).
  { intros field n fuel args Hn Hreq Hrun.
    destruct (requiredInputObjects_field _ _ Hreq) as (a & Ha & Hrequired & Hty).
    unfold defaultArgs in Hrun.
    destruct (for_of_normal_steps _ _ _ _ Hrun a Ha) as (acc & r & Hstep).
    unfold isRequiredInputField in Hrequired. unfold isRequiredArgument in Hstep.
    rewrite Hrequired, Hty in Hstep. simpl in Hstep.
    destruct (defaultInputObjectFields fuel schema (Object_values (inputFields schema n)))
      as [sub| |] eqn:Hsub; try discriminate Hstep.
    exact (Hfields fuel n sub Hn Hsub). }
  split; [intros n fuel nodes; apply Hfields|]. split; [exact Hargs|].
  intros field n fuel h siblings out Hn Hreq Hrun.
  unfold _addFieldToSelections in Hrun. simpl in Hrun.
  destruct (defaultArgs fuel schema field) as [args| |] eqn:Hrun'; try discriminate Hrun.
  exact (Hargs field n fuel args Hn Hreq Hrun').
Qed.

End SelfRequiring.

(** Adding [plant(tree: Tree!)], whose input object requires itself
    through [children: [Tree!]!], comes back with no node. *)
Lemma defaultInputObjectFields_cycle_never_returns_witness :
  Explorer.defaultArgs 9 Sample.treeSchema Sample.plant = JS.Exhausted
  /\ forall fuel args,
       Explorer.defaultArgs fuel Sample.treeSchema Sample.plant <> JS.Normal args.
Proof.
  split; [reflexivity|]. intros fuel args.
  destruct (defaultInputObjectFields_cycle_never_returns Sample.treeSchema
              (fun n => n = "Tree")) as (_ & Hargs & _).
  - intros n ->. exists "Tree". split; [reflexivity|]. vm_compute. auto.
  - apply (Hargs Sample.plant "Tree"); [reflexivity|]. vm_compute. auto.
Defined.

Section OperationResolver.
Import JS GraphQL RootView.

(** X4. [_getOperationDef] never throws: it returns the first operation
    definition of the view's kind in the document, leaving the store as
    it is, or, when the document has none, a newly allocated definition
    of that kind with an empty selection set; what it returns is always
    an operation definition of the kind, and no node of the store
    changes. *)
Theorem getOperationDef_never_throws
    (h : Store) (props : Props) (doc : DocumentNode) :
  exists h' r o,
    _getOperationDef h props doc = Normal (h', r)
    /\ h' !! r = Some (OperationDefinition o)
    /\ o_operation o = operation props
    /\ (forall x v, h !! x = Some v -> h' !! x = Some v)
    /\ ((List.find (matches h props) (definitions doc) = Some r /\ h' = h)
        \/ (List.find (matches h props) (definitions doc) = None
            /\ h !! r = None /\ o = synthesized props)).
Proof.
  unfold _getOperationDef.
  destruct (List.find (matches h props) (definitions doc)) as [d|] eqn:Hfind.
  - destruct (matches_operation h props d) as (o & Hd & Hop);
      [eapply find_some, Hfind|].
    exists h, d, o. rewrite Hd. repeat split; auto.
  - pose proof (fresh_unallocated h) as Hfresh.
    exists (<[fresh (dom h) := OperationDefinition (synthesized props)]> h),
      (fresh (dom h)), (synthesized props).
    unfold alloc. cbv zeta. rewrite lookup_insert_eq.
    split; [reflexivity|]. split; [reflexivity|].
    split; [reflexivity|]. split; [|right; auto].
    intros x v Hx. eapply lookup_weaken; [exact Hx|].
    apply insert_subseteq, Hfresh.
Qed.

(** X5. For a document as the parser produces it and a view that
    remembers at most an operation definition of its kind,
    [_modifySelections] never throws, whatever the selections; what the
    view remembers afterwards is again an operation definition of its
    kind; no node of the store changes; every definition of the document
    other than the located one is in the new document (fragments and
    other operations are neither dropped nor rebuilt); committing an
    empty list adds no definition; and the new document has at most one
    definition more. *)
Theorem modifySelections_never_throws
    (h : Store) (this : Instance) (props : Props) (selections : list ref) :
  wellFormed h (parsedQuery props) ->
  remembers h props this ->
  exists h' this' doc',
    _modifySelections h this props selections = Normal (h', this', doc')
    /\ remembers h' props this'
    /\ (forall r v, h !! r = Some v -> h' !! r = Some v)
    /\ (forall d, In d (definitions (parsedQuery props)) ->
          List.find (matches h props) (definitions (parsedQuery props)) <> Some d ->
          In d (definitions doc'))
    /\ (selections = [] ->
        forall d, In d (definitions doc') -> In d (definitions (parsedQuery props)))
    /\ length (definitions doc') <= S (length (definitions (parsedQuery props))).
Proof.
  intros Hdoc Hslot.
  assert (Hkeeps : forall h' this' doc',
             _modifySelections h this props selections = Normal (h', this', doc') ->
             remembers h' props this')
    by (intros; eapply modifySelections_keeps_remembering; eassumption).
  destruct (List.find (matches h props) (definitions (parsedQuery props)))
    as [d|] eqn:Hfind; destruct selections as [|s rest].
  - pose proof (commit_empty h this props Hdoc d Hfind) as Hrun.
    eexists _, _, _. split; [exact Hrun|]. split; [exact (Hkeeps _ _ _ Hrun)|].
    split; [auto|]. simpl. split; [|split].
    + intros d' Hin Hne. apply filter_In. split; [exact Hin|].
      unfold other_than. apply negb_true_iff, Pos.eqb_neq. congruence.
    + intros _ d' Hin. apply filter_In in Hin. tauto.
    + etransitivity; [apply filter_length_le|]. lia.
  - destruct (matches_operation h props d) as (o & Hd & Hop);
      [eapply find_some, Hfind|].
    pose proof (commit_replaces h this props Hdoc d o s rest Hfind Hd) as Hrun.
    eexists _, _, _. split; [exact Hrun|]. split; [exact (Hkeeps _ _ _ Hrun)|].
    split; [|simpl; split; [|split]].
    + intros r v Hr. eapply lookup_weaken; [exact Hr|].
      apply insert_subseteq, fresh_unallocated.
    + intros d' Hin Hne. apply in_map_iff. exists d'. split; [|exact Hin].
      destruct (ref_eqb d' d) eqn:Heq; [|reflexivity].
      apply Pos.eqb_eq in Heq. congruence.
    + intros Hnil. discriminate Hnil.
    + rewrite length_map. lia.
  - destruct (commit_nothing h this props Hdoc Hslot Hfind)
      as (kept & h' & o & Hrun & _ & _ & Hframe).
    eexists _, _, _. split; [exact Hrun|]. split; [exact (Hkeeps _ _ _ Hrun)|].
    split; [exact Hframe|]. simpl. repeat split; auto.
  - destruct (commit_prepends h this props Hdoc Hslot s rest Hfind)
      as (n & h' & Hrun & _ & _ & Hframe).
    eexists _, _, _. split; [exact Hrun|]. split; [exact (Hkeeps _ _ _ Hrun)|].
    split; [exact Hframe|]. simpl. split; [|split].
    + intros d' Hin _. right. exact Hin.
    + intros Hnil. discriminate Hnil.
    + lia.
Qed.

End OperationResolver.

(** On the sample: the query view commits a selection into a document
    that holds a subscription only. *)
Lemma modifySelections_never_throws_witness :
  exists h' this' doc',
    RootView._modifySelections Sample.documents
      {| RootView._previousOperationDef := Some 7%positive |}
      {| RootView.operation := GraphQL.query;
         RootView.parsedQuery := {| GraphQL.definitions := [8%positive] |} |}
      [2%positive]
    = JS.Normal (h', this', doc')
    /\ In 8%positive (GraphQL.definitions doc')
    /\ h' !! 8%positive = Some (GraphQL.OperationDefinition Sample.updates).
Proof.
  destruct (modifySelections_never_throws Sample.documents
              {| RootView._previousOperationDef := Some 7%positive |}
              {| RootView.operation := GraphQL.query;
                 RootView.parsedQuery := {| GraphQL.definitions := [8%positive] |} |}
              [2%positive] sample_document_parsed sample_slot_remembers)
    as (h' & this' & doc' & Hrun & _ & Hframe & Hothers & _).
  exists h', this', doc'. split; [exact Hrun|]. split.
  - apply Hothers; [left; reflexivity|]. vm_compute. discriminate.
  - apply Hframe. reflexivity.
Defined.

Section Renders.
Import JS GraphQL Explorer.

Lemma memoizeParseQuery_step (parse : Text -> DocumentNode + string)
    (memo : option (Text * DocumentNode)) (text : Text) :
  memoized parse memo ->
  run parse (memoizeParseQuery memo text)
  = (shown parse memo text, lastAccepted parse memo [text])
  /\ memoized parse (lastAccepted parse memo [text]).
Proof.
  intros Hmemo. unfold memoizeParseQuery, shown, lastAccepted, accepted, parseQuery.
  simpl.
  assert (Hmiss :
    run parse
      (then_ (if negb (truthy (trim text)) then Return Null
              else CallParse text
                     (fun r => match r with
                               | inl d => Return (Document d)
                               | inr e => Return (Error e)
                               end))
         (fun result =>
            match result with
            | Null => Return (DEFAULT_DOCUMENT, memo)
            | Error _ =>
                match memo with
                | Some (_, d) => Return (d, memo)
                | None => Return (DEFAULT_DOCUMENT, memo)
                end
            | Document result => Return (result, Some (text, result))
            end))
    = (match (if truthy (trim text)
              then match parse text with
                   | inl d => Some (text, d)
                   | inr _ => None
                   end
              else None) with
       | Some (_, d) => d
       | None =>
           if truthy (trim text)
           then match memo with
                | Some (_, d) => d
                | None => DEFAULT_DOCUMENT
                end
           else DEFAULT_DOCUMENT
       end,
       match (if truthy (trim text)
              then match parse text with
                   | inl d => Some (text, d)
                   | inr _ => None
                   end
              else None) with
       | Some latest => Some latest
       | None => memo
       end)).
  { destruct (truthy (trim text)); simpl; [|reflexivity].
    destruct (parse text) as [d|e]; simpl; [reflexivity|].
    destruct memo as [[t d]|]; reflexivity. }
  assert (Hkept :
    memoized parse
      match (if truthy (trim text)
             then match parse text with
                  | inl d => Some (text, d)
                  | inr _ => None
                  end
             else None) with
      | Some latest => Some latest
      | None => memo
      end).
  { destruct (truthy (trim text)) eqn:Htrim; [|exact Hmemo].
    destruct (parse text) as [d|e] eqn:Hparse; [|exact Hmemo].
    split; assumption. }
  split; [|exact Hkept].
  destruct memo as [[t d0]|]; [|exact Hmiss].
  destruct (Text_eqb t text) eqn:Heq; [|exact Hmiss].
  apply Text_eqb_eq in Heq. subst t. destruct Hmemo as [Htrim Hparse].
  simpl. rewrite Htrim, Hparse. reflexivity.
Qed.

Lemma renders_from (parse : Text -> DocumentNode + string) (queries : list Text) :
  forall memo,
    memoized parse memo ->
    renders parse memo queries
    = (shownAll parse memo queries, lastAccepted parse memo queries)
    /\ memoized parse (lastAccepted parse memo queries).
Proof.
  induction queries as [|text rest IH]; intros memo Hmemo.
  - split; [reflexivity|exact Hmemo].
  - destruct (memoizeParseQuery_step parse memo text Hmemo) as [Hstep Hnext].
    destruct (IH _ Hnext) as [Hrest Hlast].
    cbn [renders shownAll]. rewrite Hstep, Hrest.
    split; [reflexivity|exact Hlast].
Qed.

Lemma shownAll_length (parse : Text -> DocumentNode + string) (queries : list Text) :
  forall memo, length (shownAll parse memo queries) = length queries.
Proof.
  induction queries as [|text rest IH]; intros memo; [reflexivity|].
  cbn [shownAll length]. rewrite IH. reflexivity.
Qed.

(** X6. Over any sequence of renders from the start of a session, the
    memoizer is transparent: the document of each render is the one of
    its text when the parser accepts it, else, for a text that is not
    blank, the one of the last text accepted before it, and the empty
    document when the text is blank or nothing was accepted yet; the
    variable ends up holding the last accepted text with its document,
    and so is always in a state the memoizer can be trusted in. *)
Theorem renders_show_last_accepted
    (parse : Text -> DocumentNode + string) (queries : list Text) :
  renders parse None queries
  = (shownAll parse None queries, lastAccepted parse None queries)
  /\ memoized parse (snd (renders parse None queries))
  /\ length (fst (renders parse None queries)) = length queries.
Proof.
  destruct (renders_from parse queries None I) as [Hrun Hmemo].
  rewrite Hrun. split; [reflexivity|]. split; [exact Hmemo|].
  cbn [fst]. apply shownAll_length.
Qed.

End Renders.

(** Four renders on the sample parser: an accepted text, a rejected one,
    a blank one, and the accepted text again. *)
Example renders_sample :
  Explorer.renders Sample.parse None
    [Sample.text_a; [123%N]; [32%N]; Sample.text_a]
  = ([Sample.document_a; Sample.document_a; Explorer.DEFAULT_DOCUMENT;
      Sample.document_a],
     Some (Sample.text_a, Sample.document_a)).
Proof. reflexivity. Qed.

(* ===================================================================== *)
(** * Further properties of FieldView                                     *)
(* ===================================================================== *)

Section FieldViewMore.
Import JS GraphQL Explorer FieldView.
Context `{!Host}.

Lemma belongs_weaken (h h' : Store) props s :
  h ⊆ h' -> is_Some (h !! s) -> belongs h' props s = belongs h props s.
Proof.
  intros Hsub [v Hv]. unfold belongs.
  rewrite (lookup_weaken _ _ _ _ Hv Hsub), Hv. reflexivity.
Qed.

Lemma map_named_spec (h0 : Store) (props : Props) (children : list ref)
    (xs : list ref) :
  forall h : Store,
    h0 ⊆ h ->
    h ⊆ fst (map_named h0 h props children xs)
    /\ Forall2
         (fun s o =>
            if belongs h0 props s
            then exists node,
                h0 !! s = Some (Field node)
                /\ h !! o = None
                /\ fst (map_named h0 h props children xs) !! o
                   = Some (Field {| f_alias := f_alias node;
                                    f_name := f_name node;
                                    f_arguments := f_arguments node;
                                    f_directives := f_directives node;
                                    f_selectionSet :=
                                      Some {| GraphQL.selections := children |} |})
            else o = s)
         xs (snd (map_named h0 h props children xs)).
Proof.
  induction xs as [|s rest IH]; intros h Hsub0; cbn [map_named].
  - split; [reflexivity|constructor].
  - unfold belongs at 1.
    destruct (h0 !! s) as [[node| | | | |]|] eqn:Hs;
      try (specialize (IH h Hsub0);
           destruct (map_named h0 h props children rest) as [h2 rest'];
           cbn [fst snd] in *; destruct IH as [Hsub2 Hall];
           split; [exact Hsub2|];
           constructor; [unfold belongs; rewrite Hs; reflexivity|exact Hall]).
    destruct (String.eqb (field_name (field props)) (value (f_name node))) eqn:Hname.
    + match goal with
      | |- context [alloc h ?repl] =>
          destruct (alloc_fresh h repl) as (Hnew & Hstore & Hsub);
            destruct (alloc h repl) as [s' h1] eqn:Halloc
      end.
      cbn [fst snd] in Hnew, Hstore, Hsub.
      assert (Hsub1 : h0 ⊆ h1) by (transitivity h; assumption).
      specialize (IH h1 Hsub1).
      destruct (map_named h0 h1 props children rest) as [h2 rest'].
      cbn [fst snd] in *. destruct IH as [Hsub2 Hall]. split.
      * transitivity h1; assumption.
      * constructor.
        -- unfold belongs. rewrite Hs, Hname. exists node.
           split; [reflexivity|]. split; [exact Hnew|].
           apply (lookup_weaken h1); [|exact Hsub2].
           rewrite Hstore. apply lookup_insert_eq.
        -- eapply Forall2_impl; [exact Hall|]. intros x o. cbv beta.
           unfold belongs.
           destruct (h0 !! x) as [[nx| | | | |]|]; auto.
           destruct (String.eqb (field_name (field props)) (value (f_name nx)));
             [|auto].
           intros (node' & Hx & Hnone & Hsome). exists node'.
           split; [exact Hx|]. split; [|exact Hsome].
           eapply lookup_weaken_None; eassumption.
    + specialize (IH h Hsub0).
      destruct (map_named h0 h props children rest) as [h2 rest'].
      cbn [fst snd] in *. destruct IH as [Hsub2 Hall]. split; [exact Hsub2|].
      constructor; [unfold belongs; rewrite Hs, Hname; reflexivity|exact Hall].
Qed.

(** X7. [_modifyChildSelections] gives the new nested selections to
    every sibling that is a Field node named after the schema field, not
    to the first one only: each of them is replaced by a new object with
    its alias, name, arguments and directives and the new selection set,
    so two aliased selections of one field end up with the same nested
    selections; every other sibling is the same object as before, the
    list keeps its length and order, and no node of the store changes. *)
Theorem modifyChildSelections_rewrites_every_namesake
    (h : Store) (props : Props) (children : list ref) :
  exists h' out,
    _modifyChildSelections h props children = (h', out)
    /\ length out = length (selections props)
    /\ Forall2
         (fun s o =>
            if belongs h props s
            then exists node,
                h !! s = Some (Field node)
                /\ h !! o = None
                /\ h' !! o
                   = Some (Field {| f_alias := f_alias node;
                                    f_name := f_name node;
                                    f_arguments := f_arguments node;
                                    f_directives := f_directives node;
                                    f_selectionSet :=
                                      Some {| GraphQL.selections := children |} |})
            else o = s)
         (selections props) out
    /\ (forall r v, h !! r = Some v -> h' !! r = Some v).
Proof.
  unfold _modifyChildSelections.
  destruct (map_named_spec h props children (selections props) h) as [Hsub Hall];
    [reflexivity|].
  destruct (map_named h h props children (selections props)) as [h' out].
  cbn [fst snd] in *. exists h', out.
  split; [reflexivity|]. split; [symmetry; eapply Forall2_length, Hall|].
  split; [exact Hall|]. intros r v Hr. eapply lookup_weaken; eassumption.
Qed.

End FieldViewMore.

(** Both [posts] nodes, at references 2 and 3, are rewritten. *)
Example modifyChildSelections_sample :
  snd (FieldView._modifyChildSelections Sample.store
         {| FieldView.field := Sample.posts;
            FieldView.selections := Sample.siblings |} [4%positive])
  = [1; 5; 6]%positive.
Proof. reflexivity. Qed.

Section FieldViewToggle.
Import JS GraphQL Explorer FieldView.
Context `{!Host}.

Lemma belongs_field (h : Store) (p q : Props) (s : ref) :
  field p = field q -> belongs h p s = belongs h q s.
Proof. intros Heq. unfold belongs. rewrite Heq. reflexivity. Qed.

Lemma getSelection_skips (h : Store) (p q : Props) (pre : list ref) :
  field p = field q ->
  selections p = pre ++ selections q ->
  Forall (fun s => belongs h p s = false) pre ->
  _getSelection h p = _getSelection h q.
Proof.
  intros Hfield Hsel Hpre. unfold _getSelection. rewrite Hsel.
  assert (Hext : forall l, List.find (belongs h q) l = List.find (belongs h p) l).
  { induction l as [|s l IH]; simpl; [reflexivity|].
    rewrite (belongs_field h p q s Hfield), IH. reflexivity. }
  replace (List.find (belongs h p) (pre ++ selections q))
    with (List.find (belongs h q) (selections q)); [reflexivity|].
  rewrite Hext. clear Hsel.
  induction Hpre as [|s l Hs _ IH]; simpl; [reflexivity|].
  rewrite Hs. exact IH.
Qed.

(** An add on a list without the field, and the remove that follows. *)
Lemma add_then_remove
    (fuel : nat) (schema : GraphQLSchema) (h h1 : Store) (this this1 : Instance)
    (props : Props) (out : list ref) :
  absent h props ->
  allocated h (selections props) ->
  slotHolds h props this ->
  _addFieldToSelections fuel schema h this props = Normal (h1, this1, out) ->
  exists node,
    out = selections props ++ [node]
    /\ belongs h1 props node = true
    /\ _getSelection h1 {| field := field props; selections := out |} = Some node
    /\ _removeFieldFromSelections h1 this1
         {| field := field props; selections := out |}
       = ({| _previousSelection := Some node |}, selections props)
    /\ slotHolds h1 props {| _previousSelection := Some node |}
    /\ (forall r v, h !! r = Some v -> h1 !! r = Some v).
Proof.
  intros Habsent Halloc Hslot Hadd.
  assert (Hcore : exists node,
             out = selections props ++ [node]
             /\ belongs h1 props node = true
             /\ Forall (fun s => belongs h1 props s = false) (selections props)
             /\ (forall r v, h !! r = Some v -> h1 !! r = Some v)).
  { unfold _addFieldToSelections, slotHolds in *.
    destruct (_previousSelection this) as [previous|].
    - injection Hadd as <- <- <-. exists previous. repeat split; auto.
    - destruct (defaultArgs fuel schema (field props)) as [args| |];
        try discriminate Hadd.
      simpl in Hadd. injection Hadd as <- <- <-.
      pose proof (fresh_unallocated h) as Hfresh.
      exists (fresh (dom h)). split; [reflexivity|]. split; [|split].
      + unfold belongs. rewrite lookup_insert_eq. simpl. apply String.eqb_refl.
      + unfold absent, allocated in *.
        apply List.Forall_forall. intros s Hs.
        rewrite (belongs_weaken h); [exact (proj1 (List.Forall_forall _ _) Habsent s Hs)| |].
        * apply insert_subseteq, Hfresh.
        * exact (proj1 (List.Forall_forall _ _) Halloc s Hs).
      + intros r v Hr. eapply lookup_weaken; [exact Hr|].
        apply insert_subseteq, Hfresh. }
  destruct Hcore as (node & -> & Hnode & Hnone & Hframe).
  exists node. split; [reflexivity|]. split; [exact Hnode|].
  assert (Hget : _getSelection h1
                   {| field := field props; selections := selections props ++ [node] |}
                 = Some node).
  { apply (_getSelection_first _ _ (selections props) node []);
      [reflexivity|exact Hnone|exact Hnode]. }
  split; [exact Hget|]. split; [|split; [exact Hnode|exact Hframe]].
  rewrite (remove_found _ _ _ node Hget). cbn [selections]. f_equal.
  rewrite List.filter_app, filter_other_than_all.
  - simpl. unfold other_than, ref_eqb. rewrite Pos.eqb_refl. simpl.
    apply app_nil_r.
  - eapply first_not_before; eassumption.
Qed.

(** X9. Remove takes out one occurrence: when the first Field node of
    the schema field occurs once in the list, the list passed on is the
    original without that element, and the field is found selected in
    it exactly when a later sibling is a node of the field too, the
    first such sibling being the node found; when there is none the
    field is absent from it. *)
Theorem remove_takes_one_occurrence
    (h : Store) (this : Instance) (props : Props)
    (pre post : list ref) (node : ref) :
  selections props = pre ++ node :: post ->
  Forall (fun s => belongs h props s = false) pre ->
  belongs h props node = true ->
  ~ In node post ->
  snd (_removeFieldFromSelections h this props) = pre ++ post
  /\ _getSelection h {| field := field props; selections := pre ++ post |}
     = _getSelection h {| field := field props; selections := post |}
  /\ (Forall (fun s => belongs h props s = false) post ->
      _getSelection h {| field := field props; selections := pre ++ post |} = None)
  /\ (forall post1 twin post2,
         post = post1 ++ twin :: post2 ->
         Forall (fun s => belongs h props s = false) post1 ->
         belongs h props twin = true ->
         _getSelection h {| field := field props; selections := pre ++ post |}
         = Some twin).
Proof.
  intros Hsel Hpre Hnode Hnotpost.
  pose proof (first_not_before _ _ _ _ Hpre Hnode) as Hnotpre.
  assert (Hskip : _getSelection h {| field := field props; selections := pre ++ post |}
                  = _getSelection h {| field := field props; selections := post |})
    by (apply (getSelection_skips h _ _ pre); [reflexivity|reflexivity|exact Hpre]).
  split; [|split; [exact Hskip|split]].
  - rewrite (remove_found h this props node)
      by (eapply _getSelection_first; eassumption).
    cbn [snd]. rewrite Hsel, List.filter_app, (filter_other_than_all node pre Hnotpre).
    simpl. unfold other_than at 1, ref_eqb. rewrite Pos.eqb_refl. simpl.
    rewrite (filter_other_than_all node post Hnotpost). reflexivity.
  - intros Hpost. rewrite Hskip. unfold _getSelection. cbn [selections].
    rewrite (find_none_all
               (belongs h {| field := field props; selections := post |}) post Hpost).
    reflexivity.
  - intros post1 twin post2 -> Hpost1 Htwin. rewrite Hskip.
    apply (_getSelection_first _ _ post1 twin post2);
      [reflexivity|exact Hpost1|exact Htwin].
Qed.

(** X8. Two clicks on the checkbox of a field that is not selected.
    When no sibling is a Field node of the schema field, the siblings
    are nodes of the store and the undo slot is empty or holds a node of
    the field, the first click, when it returns, appends one node of the
    field, the cached one or a new one, so the field is then found
    selected; the second click passes on exactly the original siblings
    and leaves that node in the undo slot; no node of the store changes
    on the way. *)
Theorem two_clicks_return_siblings
    (fuel : nat) (schema : GraphQLSchema) (h h1 : Store) (this this1 : Instance)
    (props : Props) (out : list ref) :
  absent h props ->
  allocated h (selections props) ->
  slotHolds h props this ->
  onClick fuel schema h this props = Normal (h1, this1, out) ->
  exists node,
    out = selections props ++ [node]
    /\ belongs h1 props node = true
    /\ _getSelection h1 {| field := field props; selections := out |} = Some node
    /\ onClick fuel schema h1 this1 {| field := field props; selections := out |}
       = Normal (h1, {| _previousSelection := Some node |}, selections props)
    /\ slotHolds h1 props {| _previousSelection := Some node |}
    /\ (forall r v, h !! r = Some v -> h1 !! r = Some v).
Proof.
  intros Habsent Halloc Hslot Hclick.
  assert (Hnone : _getSelection h props = None).
  { unfold _getSelection. rewrite (find_none_all _ _ Habsent). reflexivity. }
  unfold onClick in Hclick. rewrite Hnone in Hclick.
  destruct (add_then_remove fuel schema h h1 this this1 props out
              Habsent Halloc Hslot Hclick)
    as (node & Hout & Hnode & Hget & Hremove & Hholds & Hframe).
  exists node. repeat (split; [assumption|]). split; [|split; assumption].
  unfold onClick. rewrite Hget, Hremove. reflexivity.
Qed.

Lemma getSelection_after_rewrite (h h' : Store) (props : Props)
    (children : list ref) (pre post out : list ref) (node : ref) :
  selections props = pre ++ node :: post ->
  Forall (fun s => belongs h props s = false) pre ->
  belongs h props node = true ->
  allocated h pre ->
  h ⊆ h' ->
  Forall2
    (fun s o =>
       if belongs h props s
       then exists f,
           h !! s = Some (Field f)
           /\ h !! o = None
           /\ h' !! o
              = Some (Field {| f_alias := f_alias f;
                               f_name := f_name f;
                               f_arguments := f_arguments f;
                               f_directives := f_directives f;
                               f_selectionSet :=
                                 Some {| GraphQL.selections := children |} |})
       else o = s)
    (selections props) out ->
  childSelections h' {| field := field props; selections := out |} = children.
Proof.
  intros Hsel Hpre Hnode Halloc Hsub Hall. rewrite Hsel in Hall.
  apply Forall2_app_inv_l in Hall.
  destruct Hall as (pre' & rest & Hpre' & Hrest & ->).
  inversion Hrest as [|? o ? post' Ho Hpost]; subst.
  rewrite Hnode in Ho. destruct Ho as (f & Hf & Hnew & Ho).
  assert (pre' = pre) as ->.
  { clear -Hpre Hpre'. revert pre' Hpre'.
    induction Hpre as [|s l Hs _ IH]; intros pre' Hpre';
      inversion Hpre' as [|? o' ? l' Ho' Hl']; subst; [reflexivity|].
    rewrite Hs in Ho'. subst o'. f_equal. apply IH, Hl'. }
  assert (Hname : belongs h props node = true) by exact Hnode.
  unfold belongs in Hname. rewrite Hf in Hname.
  assert (Hfound : _getSelection h'
                     {| field := field props; selections := pre ++ o :: post' |}
                   = Some o).
  { apply (_getSelection_first _ _ pre o post'); [reflexivity| |].
    - apply List.Forall_forall. intros s Hs.
      change (belongs h' props s = false).
      rewrite (belongs_weaken h h' props s Hsub
                 (proj1 (List.Forall_forall _ _) Halloc s Hs)).
      exact (proj1 (List.Forall_forall _ _) Hpre s Hs).
    - unfold belongs. rewrite Ho. exact Hname. }
  unfold childSelections. rewrite Hfound, Ho. reflexivity.
Qed.

(** X18. What a child view bubbles up is what the child views are next
    rendered from: when the field is selected and the siblings before
    its node are nodes of the store, the nested selections [render]
    reads, in the list and store [_modifyChildSelections] produced, are
    the selections that were passed to it. *)
Theorem modifyChildSelections_then_childSelections
    (h : Store) (props : Props) (children : list ref) (node : ref) :
  _getSelection h props = Some node ->
  allocated h (selections props) ->
  childSelections (fst (_modifyChildSelections h props children))
    {| field := field props;
       selections := snd (_modifyChildSelections h props children) |}
  = children.
Proof.
  intros Hget Halloc.
  destruct (_getSelection_found _ _ _ Hget)
    as (pre & post & f & Hsel & Hpre & Hnode & _ & _).
  unfold _modifyChildSelections.
  destruct (map_named_spec h props children (selections props) h) as [Hsub Hall];
    [reflexivity|].
  destruct (map_named h h props children (selections props)) as [h' out].
  cbn [fst snd] in *.
  apply (getSelection_after_rewrite h h' props children pre post out node);
    try assumption.
  unfold allocated in *. rewrite Hsel in Halloc.
  apply Forall_app in Halloc. tauto.
Qed.

End FieldViewToggle.

(** Two clicks on [comments], which is not selected. *)
Lemma two_clicks_return_siblings_witness :
  exists h1 node,
    FieldView.onClick 0 Sample.schema Sample.store
      {| FieldView._previousSelection := None |}
      {| FieldView.field := Sample.comments;
         FieldView.selections := Sample.siblings |}
    = JS.Normal (h1, {| FieldView._previousSelection := None |},
                 Sample.siblings ++ [node])
    /\ FieldView.onClick 0 Sample.schema h1
         {| FieldView._previousSelection := None |}
         {| FieldView.field := Sample.comments;
            FieldView.selections := Sample.siblings ++ [node] |}
       = JS.Normal (h1, {| FieldView._previousSelection := Some node |},
                    Sample.siblings).
Proof.
  eexists. eexists. split; [reflexivity|].
  match goal with
  | |- FieldView.onClick _ _ ?h1 ?this1 _ = _ =>
      destruct (two_clicks_return_siblings 0 Sample.schema Sample.store h1
                  {| FieldView._previousSelection := None |} this1
                  {| FieldView.field := Sample.comments;
                     FieldView.selections := Sample.siblings |}
                  (Sample.siblings ++ [5%positive]))
        as (node & Hout & _ & _ & Hsecond & _)
  end.
  - repeat constructor.
  - repeat constructor; eexists; reflexivity.
  - exact I.
  - reflexivity.
  - apply app_inj_tail in Hout. destruct Hout as [_ <-]. exact Hsecond.
Defined.

(** The nested selections of [viewer] after its child views bubbled up
    the list [[2]]. *)
Lemma modifyChildSelections_then_childSelections_witness :
  FieldView.childSelections
    (fst (FieldView._modifyChildSelections Sample.store
            {| FieldView.field := Sample.viewer;
               FieldView.selections := Sample.siblings |} [2%positive]))
    {| FieldView.field := Sample.viewer;
       FieldView.selections :=
         snd (FieldView._modifyChildSelections Sample.store
                {| FieldView.field := Sample.viewer;
                   FieldView.selections := Sample.siblings |} [2%positive]) |}
  = [2%positive].
Proof.
  apply (modifyChildSelections_then_childSelections Sample.store
           {| FieldView.field := Sample.viewer;
              FieldView.selections := Sample.siblings |}
           [2%positive] 1%positive eq_refl).
  repeat constructor; eexists; reflexivity.
Defined.

(** Removing [posts], selected twice, leaves it selected. *)
Lemma remove_takes_one_occurrence_witness :
  snd (FieldView._removeFieldFromSelections Sample.store
         {| FieldView._previousSelection := None |}
         {| FieldView.field := Sample.posts;
            FieldView.selections := Sample.siblings |})
  = [1; 3]%positive
  /\ FieldView._getSelection Sample.store
       {| FieldView.field := Sample.posts;
          FieldView.selections := [1; 3]%positive |}
     = Some 3%positive.
Proof.
  destruct (remove_takes_one_occurrence Sample.store
              {| FieldView._previousSelection := None |}
              {| FieldView.field := Sample.posts;
                 FieldView.selections := Sample.siblings |}
              [1%positive] [3%positive] 2%positive)
    as (Hout & _ & _ & Hnext).
  - reflexivity.
  - constructor; [reflexivity|constructor].
  - reflexivity.
  - simpl. intros [Heq|[]]. discriminate Heq.
  - split; [exact Hout|]. apply (Hnext [] 3%positive []); [reflexivity|constructor|reflexivity].
Defined.

(* ===================================================================== *)
(** * Properties of AbstractView                                          *)
(* ===================================================================== *)

Section AbstractViewSync.
Import JS GraphQL AbstractView.
Context `{!Host}.

Lemma fieldsNamed_spec (fieldNames : list string) :
  forall h : Store,
    h ⊆ fst (fieldsNamed h fieldNames)
    /\ Forall2
         (fun fieldName r =>
            h !! r = None
            /\ fst (fieldsNamed h fieldNames) !! r
               = Some (Field {| f_alias := None;
                                f_name := {| value := fieldName |};
                                f_arguments := None;
                                f_directives := None;
                                f_selectionSet := None |}))
         fieldNames (snd (fieldsNamed h fieldNames)).
Proof.
  induction fieldNames as [|fieldName rest IH]; intros h; cbn [fieldsNamed].
  - split; [reflexivity|constructor].
  - match goal with
    | |- context [alloc h ?node] =>
        destruct (alloc_fresh h node) as (Hnew & Hstore & Hsub);
          destruct (alloc h node) as [r h1] eqn:Halloc
    end.
    cbn [fst snd] in Hnew, Hstore, Hsub. specialize (IH h1).
    destruct (fieldsNamed h1 rest) as [h2 rest'].
    cbn [fst snd] in *. destruct IH as [Hsub2 Hall]. split.
    + transitivity h1; assumption.
    + constructor.
      * split; [exact Hnew|]. apply (lookup_weaken h1); [|exact Hsub2].
        rewrite Hstore. apply lookup_insert_eq.
      * eapply Forall2_impl; [exact Hall|]. intros x o [Hnone Hsome].
        split; [|exact Hsome]. eapply lookup_weaken_None; eassumption.
Qed.

Lemma scoped_is_fragment h props s :
  scoped h props s = true ->
  exists node, h !! s = Some (InlineFragment node)
               /\ i_typeCondition node = Some {| value := name (implementingType props) |}.
Proof.
  unfold scoped. destruct (h !! s) as [[|  |node| | |]|]; try discriminate.
  destruct (i_typeCondition node) as [[tc]|] eqn:Htc; try discriminate. simpl.
  intros Heq. apply String.eqb_eq in Heq. subst tc.
  exists node. split; [reflexivity|exact Htc].
Qed.

Lemma getFragment_first h props pre node post :
  selections props = pre ++ node :: post ->
  Forall (fun s => scoped h props s = false) pre ->
  scoped h props node = true ->
  _getSelection h props = Some node.
Proof.
  intros Hsel Hpre Hnode. unfold _getSelection.
  rewrite Hsel, (find_first _ pre post node Hpre Hnode).
  destruct (scoped_is_fragment _ _ _ Hnode) as (f & -> & _). reflexivity.
Qed.

Lemma getFragment_found h props node :
  _getSelection h props = Some node ->
  In node (selections props) /\ scoped h props node = true.
Proof.
  unfold _getSelection.
  destruct (List.find (scoped h props) (selections props)) as [s|] eqn:Hfind;
    [|discriminate].
  destruct (find_some _ _ Hfind) as [Hin Hs].
  destruct (h !! s) as [[| |f| | |]|]; try discriminate.
  intros [= <-]. split; assumption.
Qed.

Lemma scoped_weaken (h h' : Store) props s :
  h ⊆ h' -> is_Some (h !! s) -> scoped h' props s = scoped h props s.
Proof.
  intros Hsub [v Hv]. unfold scoped.
  rewrite (lookup_weaken _ _ _ _ Hv Hsub), Hv. reflexivity.
Qed.

(** X10. With an empty undo slot, [_addFragment] appends a new inline
    fragment whose type condition is the implementing type and whose
    selection set holds one new Field node per name the default-field
    policy gives for the type, in that order, each with a name and no
    alias, arguments, directives or selection set; no node of the store
    changes.  When the siblings are nodes of the store and none is a
    fragment on the type, the fragment is then found selected and the
    remove that follows passes on the original siblings. *)
Theorem addFragment_selects_default_fields
    (h : Store) (this : Instance) (props : Props) :
  _previousSelection this = None ->
  exists h' node fields,
    _addFragment h this props = (h', this, selections props ++ [node])
    /\ h !! node = None
    /\ h' !! node
       = Some (InlineFragment
                 {| i_typeCondition :=
                      Some {| value := name (implementingType props) |};
                    i_directives := None;
                    i_selectionSet := {| GraphQL.selections := fields |} |})
    /\ Forall2
         (fun fieldName r =>
            h !! r = None
            /\ h' !! r
               = Some (Field {| f_alias := None;
                                f_name := {| value := fieldName |};
                                f_arguments := None;
                                f_directives := None;
                                f_selectionSet := None |}))
         (getDefaultFieldNames props (implementingType props)) fields
    /\ (forall r v, h !! r = Some v -> h' !! r = Some v)
    /\ (Forall (fun s => is_Some (h !! s)) (selections props) ->
        Forall (fun s => scoped h props s = false) (selections props) ->
        _getSelection h'
          {| implementingType := implementingType props;
             selections := selections props ++ [node];
             getDefaultFieldNames := getDefaultFieldNames props |}
        = Some node
        /\ _removeFragment h' this
             {| implementingType := implementingType props;
                selections := selections props ++ [node];
                getDefaultFieldNames := getDefaultFieldNames props |}
           = ({| _previousSelection := Some node |}, selections props)).
Proof.
  intros Hslot. unfold _addFragment. rewrite Hslot.
  destruct (fieldsNamed_spec (getDefaultFieldNames props (implementingType props)) h)
    as [Hsub1 Hfields].
  destruct (fieldsNamed h (getDefaultFieldNames props (implementingType props)))
    as [h1 fields].
  cbn [fst snd] in *.
  match goal with
  | |- context [alloc h1 ?node] =>
      destruct (alloc_fresh h1 node) as (Hnew & Hstore & Hsub2);
        destruct (alloc h1 node) as [r h2] eqn:Halloc
  end.
  cbn [fst snd] in *.
  assert (Hsub : h ⊆ h2) by (transitivity h1; assumption).
  assert (Hnode : h2 !! r
                  = Some (InlineFragment
                            {| i_typeCondition :=
                                 Some {| value := name (implementingType props) |};
                               i_directives := None;
                               i_selectionSet := {| GraphQL.selections := fields |} |}))
    by (rewrite Hstore; apply lookup_insert_eq).
  assert (Hscoped : forall sels,
             scoped h2 {| implementingType := implementingType props;
                          selections := sels;
                          getDefaultFieldNames := getDefaultFieldNames props |} r
             = true).
  { intros sels. unfold scoped. rewrite Hnode. simpl. apply String.eqb_refl. }
  exists h2, r, fields. split; [reflexivity|].
  split; [eapply lookup_weaken_None; eassumption|]. split; [exact Hnode|].
  split.
  { eapply Forall2_impl; [exact Hfields|]. intros x o [Hnone Hsome].
    split; [exact Hnone|]. eapply lookup_weaken; eassumption. }
  split; [intros x v Hx; eapply lookup_weaken; eassumption|].
  intros Halloc' Habsent.
  assert (Hnone : Forall
                    (fun s =>
                       scoped h2 {| implementingType := implementingType props;
                                    selections := selections props ++ [r];
                                    getDefaultFieldNames := getDefaultFieldNames props |}
                         s = false)
                    (selections props)).
  { apply List.Forall_forall. intros s Hs.
    pose proof (proj1 (List.Forall_forall _ _) Halloc' s Hs) as Hsome.
    pose proof (proj1 (List.Forall_forall _ _) Habsent s Hs) as Hno.
    destruct Hsome as [v Hv]. unfold scoped in *. cbn [implementingType] in *.
    rewrite (lookup_weaken _ _ _ _ Hv Hsub). rewrite Hv in Hno. exact Hno. }
  assert (Hget : _getSelection h2
                   {| implementingType := implementingType props;
                      selections := selections props ++ [r];
                      getDefaultFieldNames := getDefaultFieldNames props |}
                 = Some r).
  { apply (getFragment_first _ _ (selections props) r []);
      [reflexivity|exact Hnone|apply Hscoped]. }
  split; [exact Hget|].
  unfold _removeFragment. rewrite Hget. cbn [selections same]. f_equal.
  rewrite List.filter_app. simpl. unfold ref_eqb. rewrite Pos.eqb_refl. simpl.
  rewrite app_nil_r.
  assert (Hnotin : ~ In r (selections props)).
  { intros Hin. pose proof (proj1 (List.Forall_forall _ _) Hnone r Hin) as Hno.
    cbv beta in Hno. rewrite Hscoped in Hno. discriminate Hno. }
  exact (filter_other_than_all r (selections props) Hnotin).
Qed.

(** X11. When a sibling is an inline fragment on the implementing type,
    [_removeFragment] stores the first such fragment in the undo slot
    and passes on the siblings without it: every sibling that is not a
    fragment on the type, the fragments on other types and the direct
    fields among them, stays, in order; [_addFragment], run next,
    appends that same fragment, with its directives and nested
    selections, allocating nothing. *)
Theorem removeFragment_leaves_other_types
    (h : Store) (this : Instance) (props : Props) (node : ref) :
  _getSelection h props = Some node ->
  _removeFragment h this props
  = ({| _previousSelection := Some node |},
     List.filter (other_than node) (selections props))
  /\ (forall s, In s (selections props) -> scoped h props s = false ->
        In s (List.filter (other_than node) (selections props)))
  /\ ~ In node (List.filter (other_than node) (selections props))
  /\ _addFragment h {| _previousSelection := Some node |}
       {| implementingType := implementingType props;
          selections := List.filter (other_than node) (selections props);
          getDefaultFieldNames := getDefaultFieldNames props |}
     = (h, {| _previousSelection := Some node |},
        List.filter (other_than node) (selections props) ++ [node]).
Proof.
  intros Hget. destruct (getFragment_found _ _ _ Hget) as [Hin Hscoped].
  split; [unfold _removeFragment; rewrite Hget; reflexivity|].
  split; [|split; [|reflexivity]].
  - intros s Hs Hno. apply filter_In. split; [exact Hs|].
    unfold other_than. apply negb_true_iff, Pos.eqb_neq. intros ->. congruence.
  - intros Hin'. apply filter_In in Hin'. destruct Hin' as [_ Hne].
    unfold other_than, ref_eqb in Hne. rewrite Pos.eqb_refl in Hne. discriminate Hne.
Qed.

(** X12. [_modifyChildSelections] of a fragment view replaces the found
    fragment, and only that object, by a new inline fragment on the
    implementing type with the directives of the old one and the new
    nested selections; every other sibling, another fragment on the same
    type included, is the same object as before.  When no fragment on
    the type is among the siblings the list is passed on as it is and
    nothing is allocated. *)
Theorem modifyFragmentSelections_replaces_found
    (h : Store) (props : Props) (children : list ref) :
  (forall node,
      _getSelection h props = Some node ->
      exists f h' out,
        h !! node = Some (InlineFragment f)
        /\ _modifyChildSelections h props children = (h', out)
        /\ Forall2
             (fun s o =>
                if ref_eqb s node
                then h !! o = None
                     /\ h' !! o
                        = Some (InlineFragment
                                  {| i_typeCondition :=
                                       Some {| value := name (implementingType props) |};
                                     i_directives := i_directives f;
                                     i_selectionSet :=
                                       {| GraphQL.selections := children |} |})
                else o = s)
             (selections props) out
        /\ (forall r v, h !! r = Some v -> h' !! r = Some v))
  /\ (_getSelection h props = None ->
      _modifyChildSelections h props children = (h, selections props)).
Proof.
  split.
  - intros node Hget. destruct (getFragment_found _ _ _ Hget) as [_ Hscoped].
    destruct (scoped_is_fragment _ _ _ Hscoped) as (f & Hf & _).
    unfold _modifyChildSelections. rewrite Hget, Hf.
    match goal with
    | |- context [FieldView.map_replacing h node ?repl ?xs] =>
        pose proof (map_replacing_spec node repl xs h) as [Hsub Hall];
          destruct (FieldView.map_replacing h node repl xs) as [h' out]
    end.
    cbn [fst snd] in *. exists f, h', out.
    split; [reflexivity|]. split; [reflexivity|]. split; [exact Hall|].
    intros r v Hr. eapply lookup_weaken; eassumption.
  - intros Hget. unfold _modifyChildSelections. rewrite Hget. reflexivity.
Qed.

End AbstractViewSync.

(** The fragment on [User] goes and comes back; the fragment on [Bot]
    and the field [id] stay. *)
Lemma removeFragment_leaves_other_types_witness :
  AbstractView._removeFragment Sample.fragments
    {| AbstractView._previousSelection := None |}
    (Sample.fragmentProps Sample.userType)
  = ({| AbstractView._previousSelection := Some 3%positive |}, [1; 2]%positive).
Proof.
  destruct (removeFragment_leaves_other_types Sample.fragments
              {| AbstractView._previousSelection := None |}
              (Sample.fragmentProps Sample.userType) 3%positive eq_refl)
    as (Hremove & _).
  exact Hremove.
Defined.

(** Adding the fragment on [Human], whose default fields are [id] and
    [name]. *)
Lemma addFragment_selects_default_fields_witness :
  exists h' node fields,
    AbstractView._addFragment Sample.fragments
      {| AbstractView._previousSelection := None |}
      (Sample.fragmentProps Sample.humanType)
    = (h', {| AbstractView._previousSelection := None |}, [1; 2; 3]%positive ++ [node])
    /\ h' !! node
       = Some (GraphQL.InlineFragment
                 {| GraphQL.i_typeCondition := Some {| GraphQL.value := "Human" |};
                    GraphQL.i_directives := None;
                    GraphQL.i_selectionSet := {| GraphQL.selections := fields |} |})
    /\ length fields = 2.
Proof.
  destruct (addFragment_selects_default_fields Sample.fragments
              {| AbstractView._previousSelection := None |}
              (Sample.fragmentProps Sample.humanType) eq_refl)
    as (h' & node & fields & Hadd & _ & Hnode & Hfields & _).
  exists h', node, fields. split; [exact Hadd|]. split; [exact Hnode|].
  symmetry. exact (Forall2_length _ _ _ Hfields).
Defined.

(* ===================================================================== *)
(** * Properties of ArgView and InputArgView                              *)
(* ===================================================================== *)

Section ObjectStores.
Import JS GraphQL Objects.
Context {A : Type}.

Lemma allocate_fresh (h : gmap ref A) (node : A) :
  h !! fst (allocate h node) = None
  /\ snd (allocate h node) = <[fst (allocate h node) := node]> h
  /\ h ⊆ snd (allocate h node).
Proof.
  unfold allocate. simpl.
  assert (Hfresh : h !! fresh (dom h) = None)
    by apply (not_elem_of_dom (D := gset ref)), is_fresh.
  repeat split; [exact Hfresh|]. apply insert_subseteq, Hfresh.
Qed.

Lemma objects_map_replacing_spec (target : ref) (replacement : A) (xs : list ref) :
  forall h : gmap ref A,
    h ⊆ fst (Objects.map_replacing h target replacement xs)
    /\ Forall2
         (fun s o =>
            if ref_eqb s target
            then h !! o = None
                 /\ fst (Objects.map_replacing h target replacement xs) !! o
                    = Some replacement
            else o = s)
         xs (snd (Objects.map_replacing h target replacement xs)).
Proof.
  induction xs as [|s rest IH]; intros h; cbn [Objects.map_replacing].
  - split; [reflexivity|constructor].
  - destruct (ref_eqb s target) eqn:Hs.
    + destruct (allocate_fresh h replacement) as (Hnew & Hstore & Hsub).
      destruct (allocate h replacement) as [s' h1] eqn:Halloc.
      cbn [fst snd] in Hnew, Hstore, Hsub.
      specialize (IH h1).
      destruct (Objects.map_replacing h1 target replacement rest) as [h2 rest'].
      cbn [fst snd] in *. destruct IH as [Hsub2 Hall]. split.
      * transitivity h1; assumption.
      * constructor.
        -- rewrite Hs. split; [exact Hnew|].
           apply (lookup_weaken h1); [|exact Hsub2].
           rewrite Hstore. apply lookup_insert_eq.
        -- eapply Forall2_impl; [exact Hall|]. intros x o. cbv beta.
           destruct (ref_eqb x target); [|auto].
           intros [Hnone Hsome]. split; [|exact Hsome].
           eapply lookup_weaken_None; eassumption.
    + specialize (IH h).
      destruct (Objects.map_replacing h target replacement rest) as [h2 rest'].
      cbn [fst snd] in *. destruct IH as [Hsub2 Hall]. split; [exact Hsub2|].
      constructor; [rewrite Hs; reflexivity|exact Hall].
Qed.

(** Making that succeeds is replacing. *)
Lemma map_making_normal (target : ref) (node : A) (xs : list ref) :
  forall h : gmap ref A,
    ArgView.map_making h target (Normal node) xs
    = Normal (Objects.map_replacing h target node xs).
Proof.
  induction xs as [|s rest IH]; intros h;
    cbn [ArgView.map_making Objects.map_replacing]; [reflexivity|].
  destruct (ref_eqb s target).
  - cbn [bind]. destruct (allocate h node) as [s' h1]. rewrite IH. cbn [bind].
    destruct (Objects.map_replacing h1 target node rest). reflexivity.
  - rewrite IH. cbn [bind].
    destruct (Objects.map_replacing h target node rest). reflexivity.
Qed.

End ObjectStores.

Section ArgViewSync.
Import JS GraphQL Explorer Seeds Objects ArgView.
Context `{!Host}.

Lemma argValue_returns (argType : GraphQLType) (raw : string) :
  leafType argType -> returns (argValue argType raw).
Proof.
  intros [Hleaf Hvals].
  destruct argType as [n p|n vs p| | | | | |]; try discriminate Hleaf.
  - unfold argValue. simpl isScalarType. cbv iota.
    apply try_catch_returns; [|intros e; eexists; reflexivity].
    repeat match goal with
           | |- context [if ?b then _ else _] => destruct b
           end;
      try (apply wrap_not_exhausted, parsedText_not_exhausted).
    destruct (JSON_parse raw) as [x|e]; simpl; [|discriminate].
    destruct (as_boolean x); discriminate.
  - destruct vs as [|v vs]; [destruct Hvals|].
    unfold argValue, parseValue. simpl.
    destruct (p raw) as [x|e]; simpl; [|eexists; reflexivity].
    destruct (ToBoolean x); simpl; [|eexists; reflexivity].
    destruct (ToString x); simpl; eexists; reflexivity.
Qed.

Lemma getArgSelection_found h props a :
  _getArgSelection h props = Some a ->
  exists node, h !! a = Some node
               /\ value (a_name node) = arg_name (arg props)
               /\ In a (argumentsOf props).
Proof.
  unfold _getArgSelection. intros Hfind.
  destruct (find_some _ _ Hfind) as [Hin Hnamed]. unfold named in Hnamed.
  destruct (h !! a) as [node|]; [|discriminate].
  exists node. split; [reflexivity|]. split; [|exact Hin].
  apply String.eqb_eq, Hnamed.
Qed.

(** X14. [_setArgValue] on an argument that is in the list and whose
    type unwraps to a scalar or to an enum that declares a value:
    [argValue] encodes the raw text, the found argument, and only that
    object, is replaced by a new one with the same name and the encoded
    value, every other argument is the same object as before, and no
    node of the store changes.  When the argument is not in the list, or
    its type unwraps to an input object, nothing is passed on and
    nothing is allocated. *)
Theorem setArgValue_re_encodes_found
    (h : gmap ref ArgumentNode) (props : Props) (raw : string) :
  (forall a,
      _getArgSelection h props = Some a ->
      leafType (unwrapInputType (arg_type (arg props))) ->
      exists node v h' out,
        h !! a = Some node
        /\ argValue (unwrapInputType (arg_type (arg props))) raw = Normal v
        /\ _setArgValue h props raw = Normal (h', Some out)
        /\ Forall2
             (fun x o =>
                if ref_eqb x a
                then h !! o = None
                     /\ h' !! o = Some {| a_name := a_name node; a_value := v |}
                else o = x)
             (argumentsOf props) out
        /\ (forall r n, h !! r = Some n -> h' !! r = Some n))
  /\ (_getArgSelection h props = None -> _setArgValue h props raw = Normal (h, None))
  /\ (isLeafType (unwrapInputType (arg_type (arg props))) = false ->
      _setArgValue h props raw = Normal (h, None)).
Proof.
  split; [|split].
  - intros a Hget Hleaf.
    destruct (getArgSelection_found _ _ _ Hget) as (node & Hnode & _ & _).
    destruct (argValue_returns _ raw Hleaf) as [v Hv].
    unfold _setArgValue. rewrite Hget, (proj1 Hleaf), Hnode, Hv. cbn [negb bind].
    rewrite map_making_normal.
    match goal with
    | |- context [Objects.map_replacing h a ?repl ?xs] =>
        destruct (objects_map_replacing_spec a repl xs h) as [Hsub Hall];
          destruct (Objects.map_replacing h a repl xs) as [h' out]
    end.
    cbn [fst snd bind] in *. exists node, v, h', out.
    split; [reflexivity|]. split; [reflexivity|]. split; [reflexivity|].
    split; [exact Hall|]. intros r n Hr. eapply lookup_weaken; eassumption.
  - intros Hget. unfold _setArgValue. rewrite Hget. reflexivity.
  - intros Hleaf. unfold _setArgValue. rewrite Hleaf.
    destruct (_getArgSelection h props); reflexivity.
Qed.


Section Schema.
Variables (schema : GraphQLSchema) (rank : string -> nat).
Hypothesis schema_typed : schemaInputTyped schema.
Hypothesis schema_ranked : ranked schema rank.

(** X13. For a schema whose input fields have input types and whose
    input objects do not require themselves, [_addArg] with an empty
    undo slot always adds: for every argument whose type unwraps to a
    scalar, an enum or an input object, optional or required, of a list
    type or not, it passes on the list with one new argument appended,
    named after the argument and seeded like a required argument (a list
    of scalars by the literal of its element type).  The branch that
    logs 'Unable to add arg' is never taken. *)
Theorem addArg_always_adds
    (h : gmap ref ArgumentNode) (this : Instance) (props : Props) :
  inputType (unwrapInputType (arg_type (arg props))) ->
  _previousArgSelection this = None ->
  exists fuel v,
    seed schema (unwrapInputType (arg_type (arg props))) v
    /\ forall fuel', fuel <= fuel' ->
         exists node,
           _addArg fuel' schema h this props
           = Normal (<[node := {| a_name := {| value := arg_name (arg props) |};
                                  a_value := v |}]> h,
                     this, Some (argumentsOf props ++ [node]))
           /\ h !! node = None.
Proof.
  intros [[Hleaf|Hobj] Hvals] Hslot.
  - destruct (defaultValue_literal _ (conj Hleaf Hvals)) as (v & Hv & Hlit).
    exists 0, v. split; [apply seed_leaf, Hlit|]. intros fuel' _.
    exists (fresh (dom h)). unfold _addArg. rewrite Hslot.
    rewrite (leaf_not_input_object _ Hleaf), Hleaf, Hv. cbn [bind allocate].
    split; [reflexivity|apply (not_elem_of_dom (D := gset ref)), is_fresh].
  - destruct (unwrapInputType (arg_type (arg props))) as [| | | | |n| |] eqn:Hty;
      try discriminate Hobj.
    destruct (defaultInputObjectFields_seeds schema rank schema_typed schema_ranked
                (rank n) (Object_values (inputFields schema n)) (S (rank n)))
      as (sub & Hsub & Hseeds);
      [apply schema_typed|intros m Hm; exact (schema_ranked n m Hm)|lia|].
    exists (S (rank n)), (ObjectValue sub). split; [apply seed_object, Hseeds|].
    intros fuel' Hfuel. exists (fresh (dom h)).
    unfold _addArg. rewrite Hslot, Hty. cbn [isInputObjectType getFields].
    rewrite (defaultInputObjectFields_more_fuel schema _ _ _ Hsub fuel' Hfuel).
    cbn [bind allocate].
    split; [reflexivity|apply (not_elem_of_dom (D := gset ref)), is_fresh].
Qed.

End Schema.
End ArgViewSync.

(** Setting [first] to a text that is no integer keeps the text, as a
    String literal; the variable argument [after] is passed on. *)
Lemma setArgValue_re_encodes_found_witness :
  exists h',
    ArgView._setArgValue Sample.argumentNodes Sample.firstProps "abc"
    = JS.Normal (h', Some [3; 2]%positive)
    /\ h' !! 3%positive
       = Some {| GraphQL.a_name := {| GraphQL.value := "first" |};
                 GraphQL.a_value := GraphQL.StringValue "abc" |}
    /\ h' !! 2%positive = Sample.argumentNodes !! 2%positive.
Proof.
  destruct (@setArgValue_re_encodes_found Sample.host Sample.argumentNodes
              Sample.firstProps "abc") as (Hfound & _).
  destruct (Hfound 1%positive eq_refl (conj eq_refl I))
    as (node & v & h' & out & Hnode & Hv & Hrun & _ & Hframe).
  exists h'. vm_compute in Hrun. injection Hrun as <-.
  split; [reflexivity|]. split; reflexivity.
Defined.


(** Adding the optional list argument [tags: [String!]!] seeds it with
    the empty string. *)
Lemma addArg_always_adds_witness :
  exists fuel node,
    ArgView._addArg fuel Sample.schema Sample.argumentNodes
      {| ArgView._previousArgSelection := None |} Sample.tagsProps
    = JS.Normal
        (<[node := {| GraphQL.a_name := {| GraphQL.value := "tags" |};
                      GraphQL.a_value := GraphQL.StringValue "" |}]>
           Sample.argumentNodes,
         {| ArgView._previousArgSelection := None |},
         Some ([1; 2]%positive ++ [node])).
Proof.
  destruct (@addArg_always_adds Sample.host Sample.schema Sample.rank
              sample_schema_typed sample_schema_ranked Sample.argumentNodes
              {| ArgView._previousArgSelection := None |} Sample.tagsProps)
    as (fuel & v & Hseed & Hadd).
  - split; [left; reflexivity|exact I].
  - reflexivity.
  - destruct (Hadd fuel (le_n fuel)) as (node & Hrun & _).
    exists fuel, node. rewrite Hrun.
    cbn in Hseed. inversion Hseed as [t v' Hliteral|]; subst.
    inversion Hliteral; subst; [reflexivity|congruence].
Defined.

Section InputArgViewSync.
Import JS GraphQL Explorer Objects InputArgView.
Context `{!Host}.

Lemma input_map_named_spec (h0 : gmap ref ObjectFieldNode) (props : Props)
    (children : list ObjectFieldNode) (xs : list ref) :
  forall h : gmap ref ObjectFieldNode,
    h0 ⊆ h ->
    h ⊆ fst (map_named h0 h props children xs)
    /\ Forall2
         (fun s o =>
            if named h0 props s
            then h !! o = None
                 /\ fst (map_named h0 h props children xs) !! o
                    = Some (ObjectField {| value := arg_name (arg props) |}
                              (ObjectValue children))
            else o = s)
         xs (snd (map_named h0 h props children xs)).
Proof.
  induction xs as [|s rest IH]; intros h Hsub0; cbn [map_named].
  - split; [reflexivity|constructor].
  - destruct (h0 !! s) as [[[name] v]|] eqn:Hs.
    + destruct (String.eqb (value {| value := name |}) (arg_name (arg props)))
        eqn:Hname.
      * match goal with
        | |- context [allocate h ?repl] =>
            destruct (allocate_fresh h repl) as (Hnew & Hstore & Hsub);
              destruct (allocate h repl) as [s' h1] eqn:Halloc
        end.
        cbn [fst snd] in Hnew, Hstore, Hsub.
        assert (Hsub1 : h0 ⊆ h1) by (transitivity h; assumption).
        specialize (IH h1 Hsub1).
        destruct (map_named h0 h1 props children rest) as [h2 rest'].
        cbn [fst snd] in *. destruct IH as [Hsub2 Hall]. split.
        -- transitivity h1; assumption.
        -- constructor.
           ++ unfold named. rewrite Hs. cbn [fieldName]. rewrite Hname.
              split; [exact Hnew|].
              apply (lookup_weaken h1); [|exact Hsub2].
              rewrite Hstore, lookup_insert_eq.
              cbn [value] in Hname. apply String.eqb_eq in Hname. subst name.
              reflexivity.
           ++ eapply Forall2_impl; [exact Hall|]. intros x o. cbv beta.
              destruct (named h0 props x); [|auto].
              intros [Hnone Hsome]. split; [|exact Hsome].
              eapply lookup_weaken_None; eassumption.
      * specialize (IH h Hsub0).
        destruct (map_named h0 h props children rest) as [h2 rest'].
        cbn [fst snd] in *. destruct IH as [Hsub2 Hall]. split; [exact Hsub2|].
        constructor; [|exact Hall].
        unfold named. rewrite Hs. cbn [fieldName]. rewrite Hname. reflexivity.
    + specialize (IH h Hsub0).
      destruct (map_named h0 h props children rest) as [h2 rest'].
      cbn [fst snd] in *. destruct IH as [Hsub2 Hall]. split; [exact Hsub2|].
      constructor; [|exact Hall]. unfold named. rewrite Hs. reflexivity.
Qed.

(** X16. [_modifyChildFields] gives the new nested fields to every field
    of the object value that is named after the input field, not to the
    first one only: each is replaced by a new object field of that name
    whose value is the object value of the given fields; every other
    field is the same object as before, the list keeps its length and
    order, and no node of the store changes. *)
Theorem modifyChildFields_rewrites_every_namesake
    (h : gmap ref ObjectFieldNode) (props : Props)
    (children : list ObjectFieldNode) :
  exists h' out,
    _modifyChildFields h props children = (h', out)
    /\ length out = length (fields props)
    /\ Forall2
         (fun s o =>
            if named h props s
            then h !! o = None
                 /\ h' !! o
                    = Some (ObjectField {| value := arg_name (arg props) |}
                              (ObjectValue children))
            else o = s)
         (fields props) out
    /\ (forall r v, h !! r = Some v -> h' !! r = Some v).
Proof.
  unfold _modifyChildFields.
  destruct (input_map_named_spec h props children (fields props) h) as [Hsub Hall];
    [reflexivity|].
  destruct (map_named h h props children (fields props)) as [h' out].
  cbn [fst snd] in *. exists h', out.
  split; [reflexivity|]. split; [symmetry; eapply Forall2_length, Hall|].
  split; [exact Hall|]. intros r v Hr. eapply lookup_weaken; eassumption.
Qed.


End InputArgViewSync.

(** Both [address] fields, at references 1 and 3, are rewritten. *)
Example modifyChildFields_sample :
  snd (InputArgView._modifyChildFields Sample.objectFields Sample.addressProps
         [GraphQL.ObjectField {| GraphQL.value := "city" |} (GraphQL.StringValue "")])
  = [4; 2; 5]%positive.
Proof. reflexivity. Qed.


Section EncoderKinds.
Import JS GraphQL Explorer.
Context `{!Host}.

Lemma wrapped_literal (c : completion string) (k : string -> ValueNode)
    (raw : string) (v : ValueNode) :
  try_catch (s <- c ;; Normal (k s)) (fun _ => Normal (StringValue raw)) = Normal v ->
  (exists s, v = k s) \/ v = StringValue raw.
Proof.
  destruct c as [s|e|]; simpl; intros Hv; try discriminate Hv;
    injection Hv as <-; eauto.
Qed.

Lemma enum_literal (c : completion Value) (k : completion string) (v : ValueNode) :
  try_catch
    (x <- c ;;
     if ToBoolean x then s <- call (ToString x) ;; Normal (EnumValue s)
     else n <- k ;; Normal (EnumValue n))
    (fun _ => n <- k ;; Normal (EnumValue n)) = Normal v ->
  exists s, v = EnumValue s.
Proof.
  destruct c as [x|e|]; simpl; try discriminate.
  - destruct (ToBoolean x).
    + destruct (call (ToString x)) as [s|e|]; simpl; try discriminate.
      * intros [= <-]. eauto.
      * destruct k as [m|e'|]; simpl; try discriminate. intros [= <-]. eauto.
    + destruct k as [m|e'|]; simpl; try discriminate. intros [= <-]. eauto.
  - destruct k as [m|e'|]; simpl; try discriminate. intros [= <-]. eauto.
Qed.

(** X19. Whatever the raw text, what [argValue] returns is a literal of
    a kind fixed by the type, never a variable, a list, an object or
    null: a Boolean literal for the scalar [Boolean]; an Int literal, or
    the String literal of the raw text, for [Int]; a Float literal, or
    the String literal of the raw text, for [Float]; a String literal
    for every other scalar; and an Enum literal for an enum. *)
Theorem argValue_literal_kind (argType : GraphQLType) (raw : string) (v : ValueNode) :
  argValue argType raw = Normal v ->
  match argType with
  | GraphQLScalarType n _ =>
      if String.eqb n "String" then exists s, v = StringValue s
      else if String.eqb n "Float" then (exists s, v = FloatValue s) \/ v = StringValue raw
      else if String.eqb n "Int" then (exists s, v = IntValue s) \/ v = StringValue raw
      else if String.eqb n "Boolean" then exists b, v = BooleanValue b
      else exists s, v = StringValue s
  | _ => exists s, v = EnumValue s
  end.
Proof.
  destruct argType as [n p|n vs p| | | | | |]; unfold argValue;
    cbn [isScalarType]; cbv iota; try apply enum_literal.
  unfold name_is. cbn [type_name].
  destruct (String.eqb n "String").
  { intros Hv. apply wrapped_literal in Hv. destruct Hv as [Hv| ->]; eauto. }
  destruct (String.eqb n "Float"); [apply wrapped_literal|].
  destruct (String.eqb n "Int"); [apply wrapped_literal|].
  destruct (String.eqb n "Boolean").
  { destruct (call (JSON_parse raw)) as [x|e|] eqn:Hparse; simpl.
    - destruct (as_boolean x); intros [= <-]; eauto.
    - intros [= <-]. eauto.
    - pose proof (call_not_exhausted (JSON_parse raw)). congruence. }
  intros Hv. apply wrapped_literal in Hv. destruct Hv as [Hv| ->]; eauto.
Qed.

End EncoderKinds.

(** A text that is no boolean, set on a [Boolean] argument. *)
Lemma argValue_literal_kind_witness :
  exists b, GraphQL.BooleanValue false = GraphQL.BooleanValue b.
Proof.
  exact (@argValue_literal_kind Sample.host Sample.BooleanType "maybe"
           (GraphQL.BooleanValue false) eq_refl).
Defined.

Section ArgFields.
Import JS GraphQL Explorer Seeds Objects ArgView.
Context `{!Host}.


End ArgFields.


Section InputFieldValue.
Import JS GraphQL Explorer Seeds Objects InputArgView.
Context `{!Host}.



End InputFieldValue.

